(** * NanoTask: a polling interval scheduler

  A shallow embedding of [NanoTask.hpp] (classes [Task] and [TaskManager])
  and the properties of its timers and of its keyed registry.

  Objects live in a heap indexed by their address, a [std::unique_ptr<Task>]
  is an optional address, and the methods of the two classes are written in a
  small state-and-exception monad over the machine state, taking [this] as
  their first argument, the way the C++ methods do. *)

From stdpp Require Import gmap strings list fin_maps pretty.

Local Open Scope Z_scope.

(** ** [std::chrono] arithmetic

  [std::chrono::nanoseconds] counts ticks in a signed 64-bit integer.  The
  sum of two counts is written with the two's complement wrap-around the
  compiled code produces; the C++ standard leaves a signed overflow
  undefined, so the theorems that depend on a sum say where it stays in
  range. *)
Module Chrono.

Definition int64_min : Z := - 2 ^ 63.
Definition int64_max : Z := 2 ^ 63 - 1.

Definition in_int64 (z : Z) : Prop := int64_min <= z <= int64_max.

Definition wrap64 (z : Z) : Z := (z + 2 ^ 63) `mod` 2 ^ 64 - 2 ^ 63.

(** [operator+] of two [std::chrono::nanoseconds]. *)
Definition nanos_add (a b : Z) : Z := wrap64 (a + b).

(** The tick periods the header uses, as [std::ratio]s of a second. *)
Inductive period := Seconds | Millis | Nanos.

Definition nanos_per_tick (p : period) : Z :=
  match p with
  | Seconds => 1000000000
  | Millis => 1000000
  | Nanos => 1
  end.

(** A [std::chrono::duration<long long, Period>]. *)
Record duration := { count : Z; ticks : period }.

(** The converting constructor [std::chrono::seconds(x)] and its siblings
    from an [unsigned long long]: the count is converted to [long long]. *)
Definition seconds (x : Z) : duration := {| count := wrap64 x; ticks := Seconds |}.
Definition milliseconds (x : Z) : duration := {| count := wrap64 x; ticks := Millis |}.
Definition nanoseconds (x : Z) : duration := {| count := wrap64 x; ticks := Nanos |}.

(** [std::chrono::duration_cast<std::chrono::nanoseconds>(d)]: the count is
    multiplied by the number of nanoseconds in a tick, in [long long]. *)
Definition duration_cast_nanos (d : duration) : Z :=
  wrap64 (count d * nanos_per_tick (ticks d)).

End Chrono.

(** ** The surroundings of the scheduler

  The header reads the time from [std::chrono::high_resolution_clock] and
  runs callables supplied by the caller.  Both are parameters here: [clock n]
  is the timestamp the [n]-th reading of the clock returns, [user_state] is
  whatever the callables act upon, and [exception] is what they may throw. *)
Class Platform := {
user_state : Type;
exception : Type;
clock : nat → Z;
}.

Definition clock_monotone `{Platform} : Prop :=
∀ n m : nat, (n ≤ m)%nat → clock n <= clock m.

Definition clock_in_int64 `{Platform} : Prop :=
∀ n : nat, Chrono.in_int64 (clock n).

(** An object address; [nullptr] is not one. *)
Abbreviation address := positive (only parsing).

(** [std::unique_ptr<Task>]: [None] is the null pointer. *)
Abbreviation unique_ptr := (option positive) (only parsing).

Section Model.
Context `{Platform}.

(** [std::function<void()>]: running it changes the caller's state and
    either returns or throws. *)
Definition callable : Type := user_state → option exception * user_state.

(** The data members of [class Task]. *)
Record Task := {
  mHasSetInterval : bool;
  mTask : callable;
  mNextExecStamp : Z;
  mNanoInterval : Z;
}.

(** The machine state: the heap of [Task] objects, the caller's state, the
    number of clock readings made so far, and two ghost logs, of the objects
    whose [Update] was entered and of the objects whose callable was
    invoked, in order. *)
Record Machine := {
  heap : gmap address Task;
  user : user_state;
  reads : nat;
  polled : list address;
  fired : list address;
}.

Inductive outcome (A : Type) :=
| Normal (a : A)
| Thrown (e : exception)
| Undefined.
Global Arguments Normal {A} a.
Global Arguments Thrown {A} e.
Global Arguments Undefined {A}.

(** A computation returns normally, leaves by an exception, or has no
    defined behaviour (a null or dangling pointer is dereferenced); in the
    last two cases what follows it does not run. *)
Definition M (A : Type) : Type := Machine → outcome A * Machine.

Definition ret {A} (a : A) : M A := λ s, (Normal a, s).

Definition bind {A B} (m : M A) (k : A → M B) : M B :=
  λ s, match m s with
       | (Normal a, s') => k a s'
       | (Thrown e, s') => (Thrown e, s')
       | (Undefined, s') => (Undefined, s')
       end.

End Model.

Global Arguments outcome {_} A.
Global Arguments M {_} A.

Notation "x <- m ;; k" := (bind m (λ x, k))
(at level 100, m at next level, right associativity, only parsing).
Notation "m ;;; k" := (bind m (λ _, k))
(at level 100, right associativity, only parsing).

Section Primitives.
Context `{Platform}.

Definition with_heap (h : gmap address Task) (s : Machine) : Machine :=
  {| heap := h; user := user s; reads := reads s;
     polled := polled s; fired := fired s |}.

Definition load (a : address) : M Task :=
  λ s, match heap s !! a with
       | Some t => (Normal t, s)
       | None => (Undefined, s)
       end.

Definition store (a : address) (t : Task) : M unit :=
  λ s, (Normal tt, with_heap (<[a := t]> (heap s)) s).

(** [delete p]: the object is destroyed and its storage released. *)
Definition free (a : address) : M unit :=
  λ s, match heap s !! a with
       | Some _ => (Normal tt, with_heap (delete a (heap s)) s)
       | None => (Undefined, s)
       end.

(** [p->]: the address a [unique_ptr] holds. *)
Definition deref (p : unique_ptr) : M address :=
  λ s, match p with
       | Some a => (Normal a, s)
       | None => (Undefined, s)
       end.

Definition note_polled (a : address) : M unit :=
  λ s, (Normal tt,
        {| heap := heap s; user := user s; reads := reads s;
           polled := polled s ++ [a]; fired := fired s |}).

Definition note_fired (a : address) : M unit :=
  λ s, (Normal tt,
        {| heap := heap s; user := user s; reads := reads s;
           polled := polled s; fired := fired s ++ [a] |}).

(** Calling a [std::function<void()>]. *)
Definition call (f : callable) : M unit :=
  λ s, let r := f (user s) in
       (match r.1 with None => Normal tt | Some e => Thrown e end,
        {| heap := heap s; user := r.2; reads := reads s;
           polled := polled s; fired := fired s |}).

(** [NanoTask::CurrNanoTimeStamp]: one reading of the clock. *)
Definition CurrNanoTimeStamp : M Z :=
  λ s, (Normal (clock (reads s)),
        {| heap := heap s; user := user s; reads := S (reads s);
           polled := polled s; fired := fired s |}).

End Primitives.

(** ** [class Task] *)
Section TaskMethods.
Context `{Platform}.

Definition set_mNextExecStamp (v : Z) (t : Task) : Task :=
  {| mHasSetInterval := mHasSetInterval t; mTask := mTask t;
     mNextExecStamp := v; mNanoInterval := mNanoInterval t |}.

Definition set_mNanoInterval (v : Z) (t : Task) : Task :=
  {| mHasSetInterval := mHasSetInterval t; mTask := mTask t;
     mNextExecStamp := mNextExecStamp t; mNanoInterval := v |}.

Definition set_mHasSetInterval (v : bool) (t : Task) : Task :=
  {| mHasSetInterval := v; mTask := mTask t;
     mNextExecStamp := mNextExecStamp t; mNanoInterval := mNanoInterval t |}.

(** [Task::OnIntervalChanged]:
    [mNextExecStamp = CurrNanoTimeStamp() + mNanoInterval]. *)
Definition Task_OnIntervalChanged (this : address) : M unit :=
  now <- CurrNanoTimeStamp ;;
  t <- load this ;;
  store this (set_mNextExecStamp (Chrono.nanos_add now (mNanoInterval t)) t).

(** [Task::setIntervalChronoNanos]. *)
Definition Task_setIntervalChronoNanos (this : address) (intervl : Z) : M unit :=
  t <- load this ;;
  store this (set_mNanoInterval intervl t) ;;;
  t <- load this ;;
  store this (set_mHasSetInterval true t) ;;;
  Task_OnIntervalChanged this.

(** [Task::setInterval<T>]: any duration, cast to nanoseconds. *)
Definition Task_setInterval (this : address) (intervl : Chrono.duration) : M unit :=
  Task_setIntervalChronoNanos this (Chrono.duration_cast_nanos intervl).

Definition Task_setIntervalSecs (this : address) (secs : Z) : M unit :=
  Task_setInterval this (Chrono.seconds secs).

Definition Task_setIntervalMillis (this : address) (millis : Z) : M unit :=
  Task_setInterval this (Chrono.milliseconds millis).

Definition Task_setIntervalNanos (this : address) (nanos : Z) : M unit :=
  Task_setInterval this (Chrono.nanoseconds nanos).

(** The constructor [Task::Task(itrvl, func, args...)].  [func] stands for
    the closure that applies the bound arguments.  [itrvl] is a
    [std::chrono::duration<DurType>], whose period is the second; [itrvl]
    is its count.  The two timestamps are not initialised before
    [setInterval] assigns them: [junk] is what the storage held. *)
Definition Task_ctor (this : address) (junk : Z * Z)
    (itrvl : Z) (func : callable) : M unit :=
  store this {| mHasSetInterval := false; mTask := func;
                mNextExecStamp := junk.1; mNanoInterval := junk.2 |} ;;;
  Task_setInterval this {| Chrono.count := itrvl; Chrono.ticks := Chrono.Seconds |}.

(** [Task::CanExecuteTask]. *)
Definition Task_CanExecuteTask (this : address) : M bool :=
  t <- load this ;;
  if negb (mHasSetInterval t) then ret false
  else
    currTime <- CurrNanoTimeStamp ;;
    if currTime <? mNextExecStamp t then ret false
    else
      store this
        (set_mNextExecStamp (Chrono.nanos_add currTime (mNanoInterval t)) t) ;;;
      ret true.

(** [Task::Update].  The two [note_] steps are not in the source: they
record, for the statements below, that the method was entered and that
[mTask()] was reached. *)
Definition Task_Update (this : address) : M unit :=
  note_polled this ;;;
  can <- Task_CanExecuteTask this ;;
  if negb can then ret tt
  else
    t <- load this ;;
    note_fired this ;;;
    call (mTask t).

(** The machine after [n] successive calls of [Update] on one Task by a
    caller that goes on polling whatever the previous call did. *)
Fixpoint updates (n : nat) (this : address) (s : Machine) : Machine :=
  match n with
  | O => s
  | S n' => updates n' this (Task_Update this s).2
  end.

(** The Task with its deadline moved to [now] plus its interval. *)
Definition rescheduled (now : Z) (t : Task) : Task :=
set_mNextExecStamp (Chrono.nanos_add now (mNanoInterval t)) t.

(** An armed Task with a zero interval whose deadline is not after the
next reading of the clock. *)
Definition armed_at_zero (this : address) (s : Machine) : Prop :=
∃ t, heap s !! this = Some t ∧ mHasSetInterval t = true
     ∧ mNanoInterval t = 0 ∧ mNextExecStamp t <= clock (reads s).

(** [std::make_unique<Task>(itrvl, func, args...)] with the storage the
    allocator returned at [a]. *)
Definition make_unique_Task (a : address) (junk : Z * Z)
    (itrvl : Z) (func : callable) : M unique_ptr :=
  λ s, match heap s !! a with
       | Some _ => (Undefined, s)
       | None => (Task_ctor a junk itrvl func ;;; ret (Some a)) s
       end.

End TaskMethods.

(** ** [class TaskManager] *)

(** [std::unordered_map<std::string, std::unique_ptr<Task>> mAllTasks]. *)
Record TaskManager := { mAllTasks : gmap string unique_ptr }.

(** One element of the table, as the range-[for] of [Update] sees it. *)
Abbreviation entry := (string * option positive)%type (only parsing).

(** The table enumerates its elements in an order the standard leaves open
and that depends on the history of insertions: [es] is an enumeration of the
table when it lists every element once, in whatever order. *)
Definition enumerates (es : list entry) (mgr : TaskManager) : Prop :=
es ≡ₚ map_to_list (mAllTasks mgr).

(** [(unsigned long long) tsk.get()]: the address as a number, 0 for null. *)
Definition ptr_to_ull (p : unique_ptr) : N :=
match p with
| Some a => Npos a
| None => 0%N
end.

(** The objects the elements of an enumeration point to, in order. *)
Definition addresses (es : list entry) : list address := omap snd es.

(** How often [a] occurs in a log. *)
Definition times (a : address) (l : list address) : nat :=
length (filter (λ x, x = a) l).

Section TaskManagerMethods.
Context `{Platform}.

(** [~unique_ptr()]: the owned object, if any, is deleted. *)
Definition unique_ptr_dtor (p : unique_ptr) : M unit :=
match p with
| Some a => free a
| None => ret tt
end.

(** [dst = std::move(src)] on two [unique_ptr]s: what [dst] owned is deleted,
[dst] takes over what [src] owned and [src] is left null.  The result is
the new [(dst, src)]. *)
Definition unique_ptr_move_assign (dst src : unique_ptr) : M (unique_ptr * unique_ptr) :=
unique_ptr_dtor dst ;;;
ret (src, None).

(** [TaskManager::Add(const std::string& uid, std::unique_ptr<Task>& tsk)].
[tsk] is a reference to the caller's pointer: the result carries the
registry and the caller's pointer as the call leaves them.
[mAllTasks[uid]] first inserts a null pointer under the absent key. *)
Definition TaskManager_Add (uid : string) (tsk : unique_ptr) (mgr : TaskManager)
  : M (TaskManager * unique_ptr) :=
if decide (is_Some (mAllTasks mgr !! uid)) then ret (mgr, tsk)
else
  let slot := <[uid := None]> (mAllTasks mgr) in
  r <- unique_ptr_move_assign None tsk ;;
  ret ({| mAllTasks := <[uid := r.1]> slot |}, r.2).

(** [TaskManager::Add(const std::string& uid, std::unique_ptr<Task>&& _tsk)]:
the rvalue reference is bound to an lvalue reference and passed on. *)
Definition TaskManager_Add_rvalue (uid : string) (_tsk : unique_ptr) (mgr : TaskManager)
  : M (TaskManager * unique_ptr) :=
let tsk := _tsk in
TaskManager_Add uid tsk mgr.

(** [TaskManager::Add(std::unique_ptr<Task>& tsk)]: the key is the decimal
writing of the address. *)
Definition TaskManager_Add_auto (tsk : unique_ptr) (mgr : TaskManager)
  : M (TaskManager * unique_ptr) :=
TaskManager_Add (pretty (ptr_to_ull tsk)) tsk mgr.

(** [TaskManager::Add(std::unique_ptr<Task>&& _tsk)]. *)
Definition TaskManager_Add_auto_rvalue (_tsk : unique_ptr) (mgr : TaskManager)
  : M (TaskManager * unique_ptr) :=
let tsk := _tsk in
TaskManager_Add_auto tsk mgr.

(** [TaskManager::Remove]: [erase] destroys the pointer stored under the key,
and with it the Task it owns. *)
Definition TaskManager_Remove (uid : string) (mgr : TaskManager) : M TaskManager :=
match mAllTasks mgr !! uid with
| None => ret mgr
| Some p =>
    unique_ptr_dtor p ;;;
    ret {| mAllTasks := delete uid (mAllTasks mgr) |}
end.

(** [TaskManager::Update]: [curr.second->Update()] for each element, in the
order [es] in which the table enumerates them. *)
Fixpoint TaskManager_Update (es : list entry) : M unit :=
match es with
| [] => ret tt
| curr :: rest =>
    a <- deref curr.2 ;;
    Task_Update a ;;;
    TaskManager_Update rest
end.

(** The registry owns its Tasks: no stored pointer is null, each points to a
live object, and no two keys share an object. *)
Definition owns (mgr : TaskManager) (s : Machine) : Prop :=
(∀ k p, mAllTasks mgr !! k = Some p → ∃ a, p = Some a ∧ is_Some (heap s !! a))
∧ (∀ k1 k2 a, mAllTasks mgr !! k1 = Some (Some a) →
     mAllTasks mgr !! k2 = Some (Some a) → k1 = k2).

(** Every element points to a live Task. *)
Definition all_live (es : list entry) (s : Machine) : Prop :=
Forall (λ e : entry, ∃ a, e.2 = Some a ∧ is_Some (heap s !! a)) es.

(** The caller's state after the callables of the Tasks at the addresses
[l] have run on it one after the other, each as the heap [h] binds it. *)
Fixpoint invoked (h : gmap address Task) (l : list address)
  (u : user_state) : user_state :=
match l with
| [] => u
| a :: rest =>
    match h !! a with
    | Some t => invoked h rest (mTask t u).2
    | None => invoked h rest u
    end
end.

(** No callable of a Task the registry owns throws, whatever the caller's
state. *)
Definition callables_return (mgr : TaskManager) (s : Machine) : Prop :=
∀ k a t u, mAllTasks mgr !! k = Some (Some a) → heap s !! a = Some t →
  (mTask t u).1 = None.

(** An armed Task whose deadline the clock has reached. *)
Definition due (t : Task) (s : Machine) : Prop :=
mHasSetInterval t = true ∧ mNextExecStamp t <= clock (reads s).

End TaskManagerMethods.

(** ** Sequences of calls *)
Section Sequences.
Context `{Platform}.

(** What a caller may do with one Task: poll it, or set its interval. *)
Inductive task_op :=
| Poll
| Rearm (intervl : Z).

Definition do_op (this : address) (op : task_op) : M unit :=
match op with
| Poll => Task_Update this
| Rearm intervl => Task_setIntervalChronoNanos this intervl
end.

(** The machine after the calls [ops] on one Task, in order, by a caller that
goes on whatever the previous call did. *)
Fixpoint after_ops (ops : list task_op) (this : address) (s : Machine) : Machine :=
match ops with
| [] => s
| op :: rest => after_ops rest this (do_op this op s).2
end.

(** An armed Task whose interval [D] is not positive and whose deadline is
not after the next reading of the clock. *)
Definition armed_overdue (D : Z) (this : address) (s : Machine) : Prop :=
∃ t, heap s !! this = Some t ∧ mHasSetInterval t = true
     ∧ mNanoInterval t = D ∧ mNextExecStamp t <= clock (reads s).

(** The same live objects in two machines. *)
Definition same_objects (s s' : Machine) : Prop :=
∀ a, is_Some (heap s' !! a) ↔ is_Some (heap s !! a).

End Sequences.

(** ** A concrete platform

The caller of the sample program: callables print a line, and the clock
advances by 100 ms from one reading to the next, for its first thousand
readings. *)
Module Demo.

#[local] Instance platform : Platform :=
{| user_state := list string;
   exception := string;
   clock := λ n, Z.of_nat (Nat.min n 1000) * 100000000 |}.

(** A callable that prints [msg]. *)
Definition say (msg : string) : callable := λ out, (None, out ++ [msg]).

(** A callable that throws [e]. *)
Definition fail (e : string) : callable := λ out, (Some e, out).

Definition boot : Machine :=
{| heap := ∅; user := []; reads := 0; polled := []; fired := [] |}.

(** A Task whose interval was never set. *)
Definition disarmed : Task :=
{| mHasSetInterval := false; mTask := say "never";
   mNextExecStamp := 0; mNanoInterval := 0 |}.

(** A machine holding only the disarmed Task, at address 1. *)
Definition idle : Machine :=
{| heap := {[ 1%positive := disarmed ]}; user := []; reads := 0;
   polled := []; fired := [] |}.

(** A Task armed with a one second interval whose deadline is at 1 s. *)
Definition ticker : Task :=
{| mHasSetInterval := true; mTask := say "tick";
   mNextExecStamp := 1000000000; mNanoInterval := 1000000000 |}.

(** A machine holding the ticker at address 1, not polled for 3.5 s. *)
Definition overdue : Machine :=
{| heap := {[ 1%positive := ticker ]}; user := []; reads := 35;
   polled := []; fired := [] |}.

(** The registry of the sample program, one second after its Tasks were
made: a 1 s Task at address 1 under "1Sec", which is due, and a 10 s Task at
address 2 under "10Sec", which is not.  The caller still holds a third Task,
at address 3. *)
Definition slow : Task :=
{| mHasSetInterval := true; mTask := say "10 Second Task";
   mNextExecStamp := 10000000000; mNanoInterval := 10000000000 |}.

Definition registry : TaskManager :=
{| mAllTasks := <["1Sec" := Some 1%positive]> {["10Sec" := Some 2%positive]} |}.

Definition running : Machine :=
{| heap := <[1%positive := ticker]> (<[2%positive := slow]> {[ 3%positive := disarmed ]});
   user := []; reads := 10; polled := []; fired := [] |}.

(** The same registry where the Task under "1Sec" has a callable that
throws. *)
Definition faulty : Task :=
{| mHasSetInterval := true; mTask := fail "boom";
   mNextExecStamp := 1000000000; mNanoInterval := 1000000000 |}.

Definition failing : Machine :=
{| heap := <[1%positive := faulty]> {[ 2%positive := ticker ]};
   user := []; reads := 10; polled := []; fired := [] |}.

End Demo.

(** ** The sample program, [NanoTaskTest.cpp]

The caller's state is what the program prints, one [printf] after the other,
and its global [bRemoveTask1]; its callables do not throw.  The clock is any
clock. *)
Module Sample.
Section Program.
Variable clk : nat → Z.

#[local] Instance platform : Platform :=
{| user_state := list string * bool;
   exception := Empty_set;
   clock := clk |}.

Definition newline : string := String (Ascii.ascii_of_nat 10) EmptyString.

(** [printf(taskFormat, str.c_str())] with [taskFormat = "%s Task\n"]. *)
Definition taskFormat (str : string) : string := str +:+ " Task" +:+ newline.

(** The callable of the first three Tasks. *)
Definition print (str : string) : callable :=
λ u, (None, (u.1 ++ [taskFormat str], u.2)).

(** The callable of the fourth Task, which also sets [bRemoveTask1]. *)
Definition print_and_flag (str : string) : callable :=
λ u, (None, (u.1 ++ [taskFormat str], true)).

(** Reading the global [bRemoveTask1]. *)
Definition bRemoveTask1 : M bool := λ s, (Normal (user s).2, s).

(** The machine when [main] starts. *)
Definition start : Machine :=
{| heap := ∅; user := ([], false); reads := 0; polled := []; fired := [] |}.

(** [main] up to its loop: the four Tasks are made, at the addresses
[a1] to [a4] the allocator returns, and handed to the registry. *)
Definition setup (a1 a2 a3 a4 : address) (j1 j2 j3 j4 : Z * Z) : M TaskManager :=
tsk1 <- make_unique_Task a1 j1 1 (print "1 Second") ;;
tsk2 <- make_unique_Task a2 j2 5 (print "5 Second") ;;
tsk3 <- make_unique_Task a3 j3 10 (print "10 Second") ;;
tsk4 <- make_unique_Task a4 j4 15 (print_and_flag "15 Second") ;;
r1 <- TaskManager_Add "1Sec" tsk1 {| mAllTasks := ∅ |} ;;
r2 <- TaskManager_Add_auto tsk2 r1.1 ;;
r3 <- TaskManager_Add "10Sec" tsk3 r2.1 ;;
r4 <- TaskManager_Add_auto tsk4 r3.1 ;;
ret r4.1.

(** One turn of the loop of [main], on the registry and [bTask1Removed].
[order] gives the order in which the table enumerates its elements. *)
Definition iteration (order : TaskManager → list entry)
  (st : TaskManager * bool) : M (TaskManager * bool) :=
TaskManager_Update (order st.1) ;;;
flag <- bRemoveTask1 ;;
if negb st.2 && flag then
  mgr' <- TaskManager_Remove "1Sec" st.1 ;;
  ret (mgr', true)
else ret st.

(** The first [n] turns of the loop. *)
Fixpoint loop (n : nat) (order : TaskManager → list entry)
  (st : TaskManager * bool) : M (TaskManager * bool) :=
match n with
| O => ret st
| S n' => st' <- iteration order st ;; loop n' order st'
end.

(** [main], stopped after [n] turns of its loop. *)
Definition main (n : nat) (order : TaskManager → list entry)
  (a1 a2 a3 a4 : address) (j1 j2 j3 j4 : Z * Z) : M (TaskManager * bool) :=
mgr <- setup a1 a2 a3 a4 j1 j2 j3 j4 ;;
loop n order (mgr, false).

(** The string bound to the Task at [a], and its callable. *)
Definition text (a1 a2 a3 a : address) : string :=
if decide (a = a1) then "1 Second"
else if decide (a = a2) then "5 Second"
else if decide (a = a3) then "10 Second"
else "15 Second".

Definition bound (a1 a2 a3 a4 a : address) : callable :=
if decide (a = a4) then print_and_flag (text a1 a2 a3 a)
else print (text a1 a2 a3 a).

(** What the caller's state must be when the callables in [l] have run, in
order: their lines, and the flag if the fourth Task is among them. *)
Definition observed (a1 a2 a3 a4 : address) (l : list address) : list string * bool :=
(map (λ a, taskFormat (text a1 a2 a3 a)) l, bool_decide (a4 ∈ l)).

(** The registry [main] builds, and the registry after "1Sec" is removed. *)
Definition full (a1 a2 a3 a4 : address) : TaskManager :=
{| mAllTasks :=
     <[pretty (Npos a4) := Some a4]>
       (<["10Sec" := Some a3]>
          (<[pretty (Npos a2) := Some a2]>
             (<["1Sec" := Some a1]> ∅))) |}.

Definition reduced (a1 a2 a3 a4 : address) : TaskManager :=
{| mAllTasks := delete "1Sec" (mAllTasks (full a1 a2 a3 a4)) |}.

(** Every live Task is bound to the callable of its address. *)
Definition layout (a1 a2 a3 a4 : address) (s : Machine) : Prop :=
∀ a t, heap s !! a = Some t → mTask t = bound a1 a2 a3 a4 a.

(** The caller's state is what the invocations made so far produce. *)
Definition consistent (a1 a2 a3 a4 : address) (s : Machine) : Prop :=
user s = observed a1 a2 a3 a4 (fired s).

(** What holds between two turns of the loop. *)
Definition invariant (a1 a2 a3 a4 : address)
  (st : TaskManager * bool) (s : Machine) : Prop :=
layout a1 a2 a3 a4 s
∧ consistent a1 a2 a3 a4 s
∧ st.2 = (user s).2
∧ is_Some (heap s !! a2) ∧ is_Some (heap s !! a3) ∧ is_Some (heap s !! a4)
∧ (if st.2 then st.1 = reduced a1 a2 a3 a4 ∧ heap s !! a1 = None
   else st.1 = full a1 a2 a3 a4 ∧ is_Some (heap s !! a1)).

End Program.

(** A clock that advances by one second from one reading to the next, and
the table enumerated in the order of its keys. *)
Definition tick (n : nat) : Z := Z.of_nat n * 1000000000.

Definition listing (mgr : TaskManager) : list (string * option positive) :=
map_to_list (mAllTasks mgr).

End Sample.

(** The last character of a string. *)
Fixpoint last_char (s : string) : option Ascii.ascii :=
match s with
| EmptyString => None
| String c EmptyString => Some c
| String _ rest => last_char rest
end.

(** ** Arithmetic of timestamps *)

Lemma wrap64_in_range (z : Z) : Chrono.in_int64 z → Chrono.wrap64 z = z.
Proof.
unfold Chrono.in_int64, Chrono.int64_min, Chrono.int64_max, Chrono.wrap64.
intros Hz. rewrite Z.mod_small; lia.
Qed.

Lemma nanos_add_exact (a b : Z) :
Chrono.in_int64 (a + b) → Chrono.nanos_add a b = a + b.
Proof. apply wrap64_in_range. Qed.

Lemma nanos_add_zero (a : Z) : Chrono.in_int64 a → Chrono.nanos_add a 0 = a.
Proof. intros Ha. unfold Chrono.nanos_add. rewrite Z.add_0_r. by apply wrap64_in_range. Qed.

(** ** One call of [Task::Update] *)
Section TaskSteps.
Context `{Platform}.

Lemma Task_Update_disarmed (s : Machine) (this : address) (t : Task) :
heap s !! this = Some t →
mHasSetInterval t = false →
Task_Update this s =
  (Normal tt,
   {| heap := heap s; user := user s; reads := reads s;
      polled := polled s ++ [this]; fired := fired s |}).
Proof.
intros Ht Hoff.
unfold Task_Update, Task_CanExecuteTask, bind, note_polled, load; simpl.
by rewrite Ht, Hoff.
Qed.

Lemma Task_Update_early (s : Machine) (this : address) (t : Task) :
heap s !! this = Some t →
mHasSetInterval t = true →
clock (reads s) < mNextExecStamp t →
Task_Update this s =
  (Normal tt,
   {| heap := heap s; user := user s; reads := S (reads s);
      polled := polled s ++ [this]; fired := fired s |}).
Proof.
intros Ht Hon Hearly.
unfold Task_Update, Task_CanExecuteTask, bind, note_polled, load,
  CurrNanoTimeStamp; simpl.
rewrite Ht, Hon; simpl.
by rewrite (proj2 (Z.ltb_lt _ _) Hearly).
Qed.

Lemma Task_Update_due (s : Machine) (this : address) (t : Task) :
heap s !! this = Some t →
mHasSetInterval t = true →
mNextExecStamp t <= clock (reads s) →
Task_Update this s =
  (match (mTask t (user s)).1 with
   | None => Normal tt
   | Some e => Thrown e
   end,
   {| heap := <[this := rescheduled (clock (reads s)) t]> (heap s);
      user := (mTask t (user s)).2;
      reads := S (reads s);
      polled := polled s ++ [this];
      fired := fired s ++ [this] |}).
Proof.
intros Ht Hon Hdue.
unfold Task_Update, Task_CanExecuteTask, bind, note_polled, note_fired, load,
  store, call, CurrNanoTimeStamp, with_heap, ret; simpl.
rewrite Ht, Hon; simpl.
rewrite (proj2 (Z.ltb_ge _ _) Hdue); simpl.
by rewrite lookup_insert_eq.
Qed.

Lemma Task_Update_dead (s : Machine) (b : address) :
heap s !! b = None →
Task_Update b s =
  (Undefined,
   {| heap := heap s; user := user s; reads := reads s;
      polled := polled s ++ [b]; fired := fired s |}).
Proof.
intros Hb. unfold Task_Update, Task_CanExecuteTask, bind, note_polled, load; simpl.
by rewrite Hb.
Qed.

End TaskSteps.

(** ** Arming a Task *)
Section TaskArming.
Context `{Platform}.

Lemma Task_setIntervalChronoNanos_run (s : Machine) (this : address) (t : Task) (D : Z) :
heap s !! this = Some t →
Task_setIntervalChronoNanos this D s =
  (Normal tt,
   {| heap := <[this := {| mHasSetInterval := true; mTask := mTask t;
                           mNextExecStamp := Chrono.nanos_add (clock (reads s)) D;
                           mNanoInterval := D |}]> (heap s);
      user := user s; reads := S (reads s);
      polled := polled s; fired := fired s |}).
Proof.
intros Ht.
unfold Task_setIntervalChronoNanos, Task_OnIntervalChanged, bind, load, store,
  CurrNanoTimeStamp, with_heap; simpl.
rewrite Ht; simpl.
rewrite !lookup_insert_eq; simpl.
by rewrite !insert_insert_eq.
Qed.

Lemma Task_ctor_run (s : Machine) (this : address) (junk : Z * Z)
  (itrvl : Z) (func : callable) :
let I := Chrono.duration_cast_nanos
           {| Chrono.count := itrvl; Chrono.ticks := Chrono.Seconds |} in
Task_ctor this junk itrvl func s =
  (Normal tt,
   {| heap := <[this := {| mHasSetInterval := true; mTask := func;
                           mNextExecStamp := Chrono.nanos_add (clock (reads s)) I;
                           mNanoInterval := I |}]> (heap s);
      user := user s; reads := S (reads s);
      polled := polled s; fired := fired s |}).
Proof.
intros I.
unfold Task_ctor, Task_setInterval, bind at 1, store at 1, with_heap.
erewrite Task_setIntervalChronoNanos_run by apply lookup_insert_eq.
simpl. by rewrite insert_insert_eq.
Qed.

(** The wrappers of [setInterval] differ only in the unit of their argument. *)
Lemma Task_setIntervalSecs_nanos (this : address) (secs : Z) :
0 <= secs → secs * 1000000000 <= Chrono.int64_max →
Task_setIntervalSecs this secs = Task_setIntervalChronoNanos this (secs * 1000000000).
Proof.
intros H0 H1. unfold Task_setIntervalSecs, Task_setInterval, Chrono.duration_cast_nanos.
unfold Chrono.int64_max in H1. simpl.
rewrite (wrap64_in_range secs), wrap64_in_range; [done | |];
  unfold Chrono.in_int64, Chrono.int64_min, Chrono.int64_max; lia.
Qed.

Lemma Task_setIntervalMillis_nanos (this : address) (millis : Z) :
0 <= millis → millis * 1000000 <= Chrono.int64_max →
Task_setIntervalMillis this millis = Task_setIntervalChronoNanos this (millis * 1000000).
Proof.
intros H0 H1. unfold Task_setIntervalMillis, Task_setInterval, Chrono.duration_cast_nanos.
unfold Chrono.int64_max in H1. simpl.
rewrite (wrap64_in_range millis), wrap64_in_range; [done | |];
  unfold Chrono.in_int64, Chrono.int64_min, Chrono.int64_max; lia.
Qed.

Lemma Task_setIntervalNanos_nanos (this : address) (nanos : Z) :
0 <= nanos <= Chrono.int64_max →
Task_setIntervalNanos this nanos = Task_setIntervalChronoNanos this nanos.
Proof.
intros H0. unfold Task_setIntervalNanos, Task_setInterval, Chrono.duration_cast_nanos.
unfold Chrono.int64_max in H0. simpl.
rewrite (wrap64_in_range nanos), Z.mul_1_r, wrap64_in_range; [done | |];
  unfold Chrono.in_int64, Chrono.int64_min, Chrono.int64_max; lia.
Qed.

End TaskArming.

(** ** Successive polls of one Task *)
Section TaskPolls.
Context `{Platform}.

Lemma updates_succ (n : nat) (this : address) (s : Machine) :
updates (S n) this s = (Task_Update this (updates n this s)).2.
Proof.
revert s. induction n as [|n IH]; intros s; [done|].
change (updates (S (S n)) this s) with (updates (S n) this (Task_Update this s).2).
by rewrite IH.
Qed.

Lemma updates_disarmed (n : nat) (s : Machine) (this : address) (t : Task) :
heap s !! this = Some t →
mHasSetInterval t = false →
updates n this s =
  {| heap := heap s; user := user s; reads := reads s;
     polled := polled s ++ replicate n this; fired := fired s |}.
Proof.
intros Ht Hoff. revert s Ht.
induction n as [|n IH]; intros s Ht; simpl.
- rewrite app_nil_r. by destruct s.
- rewrite (Task_Update_disarmed s this t) by done; simpl.
  rewrite IH by done; simpl. by rewrite <- app_assoc.
Qed.

Lemma updates_early (n : nat) (s : Machine) (this : address) (t : Task) :
heap s !! this = Some t →
mHasSetInterval t = true →
(∀ i : nat, (i < n)%nat → clock (reads s + i) < mNextExecStamp t) →
updates n this s =
  {| heap := heap s; user := user s; reads := (reads s + n)%nat;
     polled := polled s ++ replicate n this; fired := fired s |}.
Proof.
intros Ht Hon. revert s Ht.
induction n as [|n IH]; intros s Ht Hearly; simpl.
- rewrite app_nil_r, Nat.add_0_r. by destruct s.
- rewrite (Task_Update_early s this t); [| done | done |].
  + simpl. rewrite IH; simpl; [| done |].
    * f_equal; [lia | by rewrite <- app_assoc].
    * intros i Hi. specialize (Hearly (S i)).
      replace (reads s + S i)%nat with (S (reads s + i)) in Hearly by lia.
      apply Hearly. lia.
  + specialize (Hearly O). rewrite Nat.add_0_r in Hearly. apply Hearly. lia.
Qed.

End TaskPolls.

Lemma demo_clock_monotone : @clock_monotone Demo.platform.
Proof. intros n m Hnm. simpl. lia. Qed.

Lemma demo_clock_in_int64 : @clock_in_int64 Demo.platform.
Proof.
intros n. unfold Chrono.in_int64, Chrono.int64_min, Chrono.int64_max; simpl.
unfold Chrono.int64_max. lia.
Qed.

(** ** The timer *)
Section TaskProperties.
Context `{Platform}.

Lemma armed_at_zero_step (this : address) (s : Machine) :
clock_monotone → clock_in_int64 →
armed_at_zero this s →
armed_at_zero this (Task_Update this s).2
∧ fired (Task_Update this s).2 = fired s ++ [this]
∧ polled (Task_Update this s).2 = polled s ++ [this]
∧ reads (Task_Update this s).2 = S (reads s)
∧ (∃ t, heap s !! this = Some t
        ∧ user (Task_Update this s).2 = (mTask t (user s)).2).
Proof.
intros Hmono Hrange (t & Ht & Hon & Hzero & Hdue).
rewrite (Task_Update_due s this t) by done; simpl.
split_and!; try done; [| by exists t].
exists (rescheduled (clock (reads s)) t); simpl.
rewrite lookup_insert_eq. split_and!; try done.
unfold rescheduled; simpl. rewrite Hzero, nanos_add_zero by apply Hrange.
apply Hmono. lia.
Qed.

Lemma armed_at_zero_updates (n : nat) (this : address) (s : Machine) :
clock_monotone → clock_in_int64 →
armed_at_zero this s → armed_at_zero this (updates n this s).
Proof.
intros Hmono Hrange. revert s.
induction n as [|n IH]; intros s Hs; [done|].
simpl. apply IH. by apply armed_at_zero_step.
Qed.

(** C6. A Task whose interval was never set ([mHasSetInterval] false) is left
as it is by any number of [Update] calls: each call returns at once, without
reading the clock, the callable is never invoked, and neither the Task nor
the caller's state changes. *)
Theorem disarmed_task_never_fires (s : Machine) (this : address) (t : Task) (n : nat) :
heap s !! this = Some t →
mHasSetInterval t = false →
heap (updates n this s) = heap s
∧ fired (updates n this s) = fired s
∧ user (updates n this s) = user s
∧ reads (updates n this s) = reads s
∧ (Task_Update this (updates n this s)).1 = Normal tt.
Proof.
intros Ht Hoff.
rewrite (updates_disarmed n s this t) by done; simpl.
split_and!; try done.
by erewrite Task_Update_disarmed.
Qed.

(** C3. [setIntervalChronoNanos(D)] called at time [t] on any Task stores [D]
as the interval, arms the Task and sets the deadline to [t + D]; the stored
Task keeps nothing of the old interval or deadline, the callable is not
invoked and the caller's state is untouched. *)
Theorem set_interval_rearms_from_now (s : Machine) (this : address) (t : Task) (D : Z) :
heap s !! this = Some t →
let now := clock (reads s) in
let r := Task_setIntervalChronoNanos this D s in
r.1 = Normal tt
∧ heap r.2 = <[this := {| mHasSetInterval := true; mTask := mTask t;
                          mNextExecStamp := Chrono.nanos_add now D;
                          mNanoInterval := D |}]> (heap s)
∧ (Chrono.in_int64 (now + D) →
   ∃ t', heap r.2 !! this = Some t' ∧ mNextExecStamp t' = now + D
         ∧ mNanoInterval t' = D ∧ mHasSetInterval t' = true ∧ mTask t' = mTask t)
∧ fired r.2 = fired s
∧ polled r.2 = polled s
∧ user r.2 = user s.
Proof.
intros Ht now r. subst r.
rewrite (Task_setIntervalChronoNanos_run s this t D Ht); simpl.
split_and!; try done.
intros Hfit. eexists. rewrite lookup_insert_eq. split; [done|]. simpl.
split_and!; try done. by apply nanos_add_exact.
Qed.

(** C1. A Task constructed at time [t0] with interval [I]: the [Update] calls
made while the clock reads less than [t0 + I] return without invoking the
callable and leave the Task and the caller's state as they were, and the
first call at which the clock reads [t0 + I] or more invokes the callable
once. *)
Theorem task_fires_first_at_deadline (s : Machine) (this : address)
  (junk : Z * Z) (itrvl : Z) (func : callable) (k : nat) :
let I := Chrono.duration_cast_nanos
           {| Chrono.count := itrvl; Chrono.ticks := Chrono.Seconds |} in
let t0 := clock (reads s) in
let s0 := (Task_ctor this junk itrvl func s).2 in
Chrono.in_int64 (t0 + I) →
(∀ i : nat, (i < k)%nat → clock (reads s0 + i) < t0 + I) →
t0 + I <= clock (reads s0 + k) →
(∀ j : nat, (j ≤ k)%nat →
   heap (updates j this s0) = heap s0
   ∧ user (updates j this s0) = user s
   ∧ fired (updates j this s0) = fired s)
∧ (∀ j : nat, (j < k)%nat → (Task_Update this (updates j this s0)).1 = Normal tt)
∧ fired (Task_Update this (updates k this s0)).2 = fired s ++ [this]
∧ user (Task_Update this (updates k this s0)).2 = (func (user s)).2
∧ (Task_Update this (updates k this s0)).1
  = match (func (user s)).1 with None => Normal tt | Some e => Thrown e end.
Proof.
intros I t0 s0 Hfit Hearly Hdue. subst s0.
rewrite Task_ctor_run in *; simpl in *. fold I in Hearly, Hdue |- *. fold t0.
set (T := {| mHasSetInterval := true; mTask := func;
             mNextExecStamp := Chrono.nanos_add t0 I; mNanoInterval := I |}).
set (s0 := {| heap := <[this := T]> (heap s); user := user s;
              reads := S (reads s); polled := polled s; fired := fired s |}).
assert (HT : heap s0 !! this = Some T) by apply lookup_insert_eq.
assert (Hnext : Chrono.nanos_add t0 I = t0 + I) by by apply nanos_add_exact.
assert (Hrun : ∀ j : nat, (j ≤ k)%nat →
          updates j this s0 =
          {| heap := heap s0; user := user s0; reads := (reads s0 + j)%nat;
             polled := polled s0 ++ replicate j this; fired := fired s0 |}).
{ intros j Hj. apply (updates_early j s0 this T); [done | done |].
  intros i Hi. simpl. rewrite Hnext. apply Hearly. lia. }
assert (Hlast : Task_Update this (updates k this s0) =
          (match (func (user s)).1 with None => Normal tt | Some e => Thrown e end,
           {| heap := <[this := rescheduled (clock (reads s0 + k)) T]> (heap s0);
              user := (func (user s)).2;
              reads := S (reads s0 + k);
              polled := (polled s0 ++ replicate k this) ++ [this];
              fired := fired s ++ [this] |})).
{ rewrite Hrun by lia.
  rewrite (Task_Update_due _ this T); simpl; [done | done | done |].
  by rewrite Hnext. }
split_and!.
- intros j Hj. by rewrite Hrun.
- intros j Hj. rewrite Hrun by lia.
  rewrite (Task_Update_early _ this T); simpl; [done | done | done |].
  rewrite Hnext. by apply Hearly.
- by rewrite Hlast.
- by rewrite Hlast.
- by rewrite Hlast.
Qed.

(** C2. One [Update] call on an armed Task invokes the callable at most once;
and when the call comes any number of whole intervals after the deadline, it
invokes the callable once and sets the deadline to the time of the call plus
the interval. *)
Theorem update_fires_once_without_catching_up (s : Machine) (this : address) (t : Task) :
heap s !! this = Some t →
mHasSetInterval t = true →
let now := clock (reads s) in
let r := Task_Update this s in
(fired r.2 = fired s ∨ fired r.2 = fired s ++ [this])
∧ (∀ missed : nat,
     0 <= mNanoInterval t →
     mNextExecStamp t + Z.of_nat missed * mNanoInterval t <= now →
     Chrono.in_int64 (now + mNanoInterval t) →
     fired r.2 = fired s ++ [this]
     ∧ user r.2 = (mTask t (user s)).2
     ∧ heap r.2 = <[this := set_mNextExecStamp (now + mNanoInterval t) t]> (heap s)).
Proof.
intros Ht Hon now r. subst r. split.
- destruct (Z.lt_ge_cases now (mNextExecStamp t)) as [Hearly | Hdue].
  + left. by rewrite (Task_Update_early s this t).
  + right. by rewrite (Task_Update_due s this t).
- intros missed Hpos Hmissed Hfit.
  assert (Hdue : mNextExecStamp t <= now) by nia.
  rewrite (Task_Update_due s this t) by done; simpl.
  split_and!; try done.
  unfold rescheduled. fold now. by rewrite nanos_add_exact.
Qed.

(** C8. Once a Task is armed with an interval of zero nanoseconds, every
[Update] call invokes its callable, provided the clock never goes back. *)
Theorem zero_interval_fires_on_every_poll (s : Machine) (this : address)
  (t : Task) (n : nat) :
clock_monotone → clock_in_int64 →
heap s !! this = Some t →
let s0 := (Task_setIntervalChronoNanos this 0 s).2 in
let before := updates n this s0 in
let r := Task_Update this before in
fired r.2 = fired before ++ [this]
∧ ∃ t', heap before !! this = Some t'
        ∧ user r.2 = (mTask t' (user before)).2.
Proof.
intros Hmono Hrange Ht s0 before r.
assert (H0 : armed_at_zero this s0).
{ subst s0. rewrite (Task_setIntervalChronoNanos_run s this t 0 Ht); simpl.
  eexists. simpl. rewrite lookup_insert_eq. split; [done|]. simpl.
  split_and!; try done.
  rewrite nanos_add_zero by apply Hrange. apply Hmono. lia. }
assert (Hn : armed_at_zero this before) by by apply armed_at_zero_updates.
destruct (armed_at_zero_step this before Hmono Hrange Hn)
  as (_ & Hfired & _ & _ & Huser).
by split.
Qed.

End TaskProperties.

(** ** The registry *)
Section RegistrySteps.
Context `{Platform}.

Lemma TaskManager_Add_present (uid : string) (tsk : unique_ptr)
  (mgr : TaskManager) (s : Machine) :
is_Some (mAllTasks mgr !! uid) →
TaskManager_Add uid tsk mgr s = (Normal (mgr, tsk), s).
Proof.
intros Hin. unfold TaskManager_Add. by rewrite decide_True.
Qed.

Lemma TaskManager_Add_absent (uid : string) (tsk : unique_ptr)
  (mgr : TaskManager) (s : Machine) :
mAllTasks mgr !! uid = None →
TaskManager_Add uid tsk mgr s =
  (Normal ({| mAllTasks := <[uid := tsk]> (mAllTasks mgr) |}, None), s).
Proof.
intros Hout. unfold TaskManager_Add.
destruct (decide (is_Some (mAllTasks mgr !! uid))) as [Hin | _].
{ rewrite Hout in Hin. by destruct Hin. }
unfold bind, unique_ptr_move_assign, unique_ptr_dtor, bind, ret; simpl.
by rewrite insert_insert_eq.
Qed.

Lemma TaskManager_Remove_absent (uid : string) (mgr : TaskManager) (s : Machine) :
mAllTasks mgr !! uid = None →
TaskManager_Remove uid mgr s = (Normal mgr, s).
Proof. intros Hout. unfold TaskManager_Remove. by rewrite Hout. Qed.

Lemma TaskManager_Remove_present (uid : string) (mgr : TaskManager) (s : Machine)
  (a : address) (t : Task) :
mAllTasks mgr !! uid = Some (Some a) →
heap s !! a = Some t →
TaskManager_Remove uid mgr s =
  (Normal {| mAllTasks := delete uid (mAllTasks mgr) |},
   with_heap (delete a (heap s)) s).
Proof.
intros Hin Ha. unfold TaskManager_Remove. rewrite Hin.
unfold bind, unique_ptr_dtor, free. by rewrite Ha.
Qed.

Lemma TaskManager_Update_app (pre post : list entry) (s : Machine) :
TaskManager_Update (pre ++ post) s =
  (TaskManager_Update pre ;;; TaskManager_Update post) s.
Proof.
revert s. induction pre as [|e pre IH]; intros s; [done|].
simpl. unfold bind.
destruct (deref e.2 s) as [[a | e' |] s1]; try done.
destruct (Task_Update a s1) as [[[] | e' |] s2]; [| done | done].
apply IH.
Qed.

(** Ownership is what the registry keeps when it is used as the sample
program uses it: it holds for the empty registry, and [Add] of a live Task
the registry does not own yet and [Remove] preserve it. *)
Lemma owns_empty (s : Machine) : owns {| mAllTasks := ∅ |} s.
Proof.
split.
- intros k p Hk. simpl in Hk. by rewrite lookup_empty in Hk.
- intros k1 k2 a Hk. simpl in Hk. by rewrite lookup_empty in Hk.
Qed.

Lemma owns_Add (uid : string) (a : address) (t : Task)
  (mgr : TaskManager) (s : Machine) :
owns mgr s →
heap s !! a = Some t →
(∀ k, mAllTasks mgr !! k ≠ Some (Some a)) →
∃ mgr' tsk',
  TaskManager_Add uid (Some a) mgr s = (Normal (mgr', tsk'), s)
  ∧ owns mgr' s
  ∧ (mAllTasks mgr !! uid = None →
     tsk' = None ∧ mAllTasks mgr' !! uid = Some (Some a)).
Proof.
intros [Hlive Hinj] Ha Hfresh.
destruct (mAllTasks mgr !! uid) as [p|] eqn:Huid.
- exists mgr, (Some a). rewrite TaskManager_Add_present by by rewrite Huid.
  by split_and!.
- eexists _, _. rewrite TaskManager_Add_absent by done.
  split; [done|]. split; [| intros _; split; [done | apply lookup_insert_eq]].
  split; simpl.
  + intros k p Hk. apply lookup_insert_Some in Hk as [[<- <-] | [_ Hk]].
    * exists a. by rewrite Ha.
    * by eapply Hlive.
  + intros k1 k2 b H1 H2.
    apply lookup_insert_Some in H1 as [[<- H1] | [Hne1 H1]];
      apply lookup_insert_Some in H2 as [[<- H2] | [Hne2 H2]]; try done.
    * injection H1 as <-. by destruct (Hfresh k2).
    * injection H2 as <-. by destruct (Hfresh k1).
    * by eapply Hinj.
Qed.

Lemma owns_Remove (uid : string) (mgr : TaskManager) (s : Machine) :
owns mgr s →
∃ mgr', (TaskManager_Remove uid mgr s).1 = Normal mgr'
        ∧ owns mgr' (TaskManager_Remove uid mgr s).2.
Proof.
intros [Hlive Hinj].
destruct (mAllTasks mgr !! uid) as [p|] eqn:Huid.
- destruct (Hlive uid p Huid) as (a & -> & [t Ha]).
  rewrite (TaskManager_Remove_present uid mgr s a t) by done.
  eexists. split; [done|]. split; simpl.
  + intros k p Hk. apply lookup_delete_Some in Hk as [Hne Hk].
    destruct (Hlive k p Hk) as (b & -> & Hb). exists b. split; [done|].
    rewrite lookup_delete_ne; [done|].
    intros ->. apply Hne. by apply (Hinj uid k b).
  + intros k1 k2 b [_ H1]%lookup_delete_Some [_ H2]%lookup_delete_Some.
    by eapply Hinj.
- rewrite TaskManager_Remove_absent by done. by exists mgr.
Qed.

(** The key [Add(tsk)] derives from a pointer tells pointers apart. *)
Lemma auto_key_inj (p q : unique_ptr) :
pretty (ptr_to_ull p) = pretty (ptr_to_ull q) → p = q.
Proof.
intros Heq%(inj pretty).
destruct p, q; simpl in Heq; congruence.
Qed.

Lemma TaskManager_Add_auto_absent (a : address) (mgr : TaskManager) (s : Machine) :
mAllTasks mgr !! pretty (Npos a) = None →
TaskManager_Add_auto_rvalue (Some a) mgr s =
  (Normal ({| mAllTasks := <[pretty (Npos a) := Some a]> (mAllTasks mgr) |}, None), s).
Proof.
intros Hfree. unfold TaskManager_Add_auto_rvalue, TaskManager_Add_auto; simpl.
by apply TaskManager_Add_absent.
Qed.

End RegistrySteps.

(** ** Counting occurrences in the logs *)

Lemma times_app (a : address) (l1 l2 : list address) :
times a (l1 ++ l2) = (times a l1 + times a l2)%nat.
Proof. unfold times. by rewrite filter_app, length_app. Qed.

Lemma times_not_in (a : address) (l : list address) : a ∉ l → times a l = O.
Proof.
unfold times. induction l as [|x l IH]; intros Hnot; [done|].
apply not_elem_of_cons in Hnot as [Hne Hnot].
rewrite filter_cons_False by congruence. by apply IH.
Qed.

Lemma times_NoDup (a : address) (l : list address) :
NoDup l → a ∈ l → times a l = 1%nat.
Proof.
induction 1 as [|x l Hx Hdup IH]; intros Hin; [by apply elem_of_nil in Hin|].
apply elem_of_cons in Hin as [-> | Hin].
- unfold times. rewrite filter_cons_True by done. simpl.
  f_equal. by apply times_not_in.
- unfold times. rewrite filter_cons_False; [by apply IH|].
  intros ->. by apply Hx.
Qed.

Lemma times_NoDup_le (a : address) (l : list address) :
NoDup l → (times a l ≤ 1)%nat.
Proof.
intros Hdup. destruct (decide (a ∈ l)) as [Hin | Hnot].
- by rewrite times_NoDup.
- rewrite times_not_in by done. lia.
Qed.

(** ** One sweep of the registry *)
Section RegistrySweep.
Context `{Platform}.

(** What one [Update] does to the machine, whatever the state of the Task. *)
Lemma Task_Update_frame (s : Machine) (b : address) (t : Task) :
heap s !! b = Some t →
∃ l t',
  fired (Task_Update b s).2 = fired s ++ l
  ∧ (l = [] ∨ l = [b])
  ∧ polled (Task_Update b s).2 = polled s ++ [b]
  ∧ (reads s ≤ reads (Task_Update b s).2)%nat
  ∧ heap (Task_Update b s).2 = <[b := t']> (heap s)
  ∧ mTask t' = mTask t
  ∧ (Task_Update b s).1 ≠ Undefined
  ∧ (due t s → l = [b])
  ∧ ((∀ u, (mTask t u).1 = None) → (Task_Update b s).1 = Normal tt).
Proof.
intros Ht.
destruct (mHasSetInterval t) eqn:Hon.
- destruct (Z.lt_ge_cases (clock (reads s)) (mNextExecStamp t)) as [Hearly | Hdue].
  + rewrite (Task_Update_early s b t) by done; simpl.
    exists [], t. rewrite app_nil_r, insert_id by done.
    split_and!; try done; try lia; try by left.
    intros [_ Hd]. lia.
  + rewrite (Task_Update_due s b t) by done; simpl.
    exists [b], (rescheduled (clock (reads s)) t).
    split_and!; try done; try lia; try by right.
    * by destruct (mTask t (user s)).1.
    * intros Hquiet. by rewrite Hquiet.
- rewrite (Task_Update_disarmed s b t) by done; simpl.
  exists [], t. rewrite app_nil_r, insert_id by done.
  split_and!; try done; try by left.
  intros [Hd _]. congruence.
Qed.

(** [Update] never changes which callable a Task is bound to. *)
Lemma Task_Update_callables (s : Machine) (b a : address) :
mTask <$> heap (Task_Update b s).2 !! a = mTask <$> heap s !! a.
Proof.
destruct (heap s !! b) as [t|] eqn:Ht.
- destruct (Task_Update_frame s b t Ht) as (l & t' & _ & _ & _ & _ & Hh & Hsame & _).
  rewrite Hh. destruct (decide (b = a)) as [<- | Hne].
  + rewrite lookup_insert_eq, Ht. simpl. by rewrite Hsame.
  + by rewrite lookup_insert_ne.
- by rewrite Task_Update_dead.
Qed.

Lemma all_live_after_update (es : list entry) (s s1 : Machine)
  (b : address) (t' : Task) :
heap s1 = <[b := t']> (heap s) →
all_live es s → all_live es s1.
Proof.
intros Hheap Hlive. unfold all_live in *.
eapply Forall_impl; [exact Hlive |].
intros e (a & He & Ha). exists a. split; [done|].
rewrite Hheap. destruct (decide (b = a)) as [-> | Hne].
- by rewrite lookup_insert_eq.
- by rewrite lookup_insert_ne.
Qed.

Lemma sweep_normal (es : list entry) (s : Machine) :
all_live es s →
NoDup (addresses es) →
(TaskManager_Update es s).1 = Normal tt →
polled (TaskManager_Update es s).2 = polled s ++ addresses es
∧ (reads s ≤ reads (TaskManager_Update es s).2)%nat
∧ ∃ l, fired (TaskManager_Update es s).2 = fired s ++ l
       ∧ l `sublist_of` addresses es
       ∧ (clock_monotone → ∀ a t, a ∈ addresses es →
            heap s !! a = Some t → due t s → a ∈ l).
Proof.
revert s. induction es as [|[k p] es IH]; intros s Hlive Hdup Hret.
- simpl. rewrite app_nil_r. split_and!; [done | done |].
  exists []. rewrite app_nil_r. split_and!; [done | done |].
  intros _ a t Ha. by apply elem_of_nil in Ha.
- apply Forall_cons in Hlive as [(b & Hb & [t Ht]) Hlive].
  simpl in Hb. subst p.
  change (addresses ((k, Some b) :: es)) with (b :: addresses es) in *.
  apply NoDup_cons in Hdup as [Hfresh Hdup].
  destruct (Task_Update_frame s b t Ht)
    as (l1 & t' & Hf1 & Hl1 & Hp1 & Hr1 & Hh1 & _ & _ & Hdue1 & _).
  simpl in Hret |- *. unfold bind, deref in Hret |- *. simpl in Hret |- *.
  destruct (Task_Update b s) as [[[] | e |] s1]; simpl in *; try done.
  destruct (IH s1) as (Hp2 & Hr2 & l2 & Hf2 & Hsub2 & Hdue2);
    [by eapply all_live_after_update | done | done |].
  split_and!.
  + by rewrite Hp2, Hp1, <- app_assoc.
  + lia.
  + exists (l1 ++ l2). split_and!.
    * by rewrite Hf2, Hf1, <- app_assoc.
    * destruct Hl1 as [-> | ->]; simpl;
        [by apply sublist_cons | by apply sublist_skip].
    * intros Hmono a ta Ha Hta Hd.
      apply elem_of_app.
      apply elem_of_cons in Ha as [-> | Ha].
      -- left. assert (ta = t) as -> by congruence.
         rewrite (Hdue1 Hd). by apply list_elem_of_singleton.
      -- right. apply (Hdue2 Hmono a ta); [done | |].
         ++ rewrite Hh1, lookup_insert_ne; [done|]. by intros ->.
         ++ destruct Hd as [Hon Hd]. split; [done|].
            etrans; [exact Hd|]. by apply Hmono.
Qed.

Lemma sweep_returns (es : list entry) (s : Machine) :
all_live es s →
(∀ e a t u, e ∈ es → e.2 = Some a → heap s !! a = Some t → (mTask t u).1 = None) →
(TaskManager_Update es s).1 = Normal tt.
Proof.
revert s. induction es as [|[k p] es IH]; intros s Hlive Hquiet; [done|].
apply Forall_cons in Hlive as [(b & Hb & [t Ht]) Hlive].
simpl in Hb. subst p.
destruct (Task_Update_frame s b t Ht)
  as (l1 & t' & _ & _ & _ & _ & Hh1 & Hsame & _ & _ & Hnormal).
simpl. unfold bind, deref. simpl.
rewrite (surjective_pairing (Task_Update b s)).
rewrite Hnormal by (intros u; eapply (Hquiet (k, Some b)); [left | done | done]).
apply IH; [by eapply all_live_after_update |].
intros e a ta u He Ha Hta. rewrite Hh1 in Hta.
destruct (decide (b = a)) as [-> | Hne].
- rewrite lookup_insert_eq in Hta. injection Hta as <-. rewrite Hsame.
  eapply (Hquiet (k, Some a)); [left | done | done].
- rewrite lookup_insert_ne in Hta by done.
  eapply (Hquiet e); [by right | done | done].
Qed.

(** The enumerations of a registry that owns its Tasks. *)
Lemma addresses_NoDup (es : list entry) :
NoDup es.*1 →
(∀ k1 k2 a, (k1, Some a) ∈ es → (k2, Some a) ∈ es → k1 = k2) →
NoDup (addresses es).
Proof.
induction es as [|[k p] es IH]; intros Hkeys Hinj; [constructor|].
simpl in Hkeys. apply NoDup_cons in Hkeys as [Hk Hkeys].
assert (Hrest : NoDup (addresses es)).
{ apply IH; [done|]. intros k1 k2 a H1 H2. apply (Hinj k1 k2 a); by right. }
destruct p as [b|]; [|done].
change (addresses ((k, Some b) :: es)) with (b :: addresses es).
apply NoDup_cons. split; [|done].
intros Hb. apply list_elem_of_omap in Hb as ([k' p'] & Hin & Hp').
simpl in Hp'. subst p'.
assert (k = k') as <- by (apply (Hinj k k' b); [left | by right]).
apply Hk. apply list_elem_of_fmap. by exists (k, Some b).
Qed.

Lemma enumeration_of_owner (es : list entry) (mgr : TaskManager) (s : Machine) :
enumerates es mgr → owns mgr s →
all_live es s
∧ NoDup (addresses es)
∧ ∀ a, a ∈ addresses es ↔ ∃ k, mAllTasks mgr !! k = Some (Some a).
Proof.
unfold enumerates. intros Hperm [Hlive Hinj].
assert (Hin : ∀ k p, (k, p) ∈ es ↔ mAllTasks mgr !! k = Some p).
{ intros k p. rewrite Hperm. apply elem_of_map_to_list. }
split_and!.
- apply Forall_forall. intros [k p] He. apply Hin in He. by eapply Hlive.
- apply addresses_NoDup.
  + rewrite Hperm. apply NoDup_fst_map_to_list.
  + intros k1 k2 a H1%Hin H2%Hin. by eapply Hinj.
- intros a. unfold addresses. rewrite list_elem_of_omap. split.
  + intros ([k p] & He & Hp). simpl in Hp. subst p. exists k. by apply Hin.
  + intros [k Hk]. exists (k, Some a). split; [by apply Hin | done].
Qed.

(** ** What a sweep does to the caller's state *)

Lemma invoked_app (h : gmap address Task) (l1 l2 : list address) (u : user_state) :
invoked h (l1 ++ l2) u = invoked h l2 (invoked h l1 u).
Proof.
revert u. induction l1 as [|a l1 IH]; intros u; [done|].
simpl. by destruct (h !! a).
Qed.

(** Only the callables the heap binds matter. *)
Lemma invoked_ext (h h' : gmap address Task) (l : list address) (u : user_state) :
(∀ a, mTask <$> h' !! a = mTask <$> h !! a) →
invoked h' l u = invoked h l u.
Proof.
intros Hsame. revert u. induction l as [|a l IH]; intros u; [done|].
simpl. specialize (Hsame a).
destruct (h' !! a) as [t'|], (h !! a) as [t|]; simpl in Hsame; try done.
injection Hsame as ->. apply IH.
Qed.

(** One [Update] leaves the caller's state as it was, or as the one run of
the callable of its Task left it. *)
Lemma Task_Update_invoked (s : Machine) (b : address) :
∃ l, fired (Task_Update b s).2 = fired s ++ l
     ∧ user (Task_Update b s).2 = invoked (heap s) l (user s).
Proof.
destruct (heap s !! b) as [t|] eqn:Ht.
- destruct (mHasSetInterval t) eqn:Hon.
  + destruct (Z.lt_ge_cases (clock (reads s)) (mNextExecStamp t)).
    * rewrite (Task_Update_early s b t) by done. exists []. by rewrite app_nil_r.
    * rewrite (Task_Update_due s b t) by done. exists [b]. simpl. by rewrite Ht.
  + rewrite (Task_Update_disarmed s b t) by done. exists []. by rewrite app_nil_r.
- rewrite Task_Update_dead by done. exists []. by rewrite app_nil_r.
Qed.

(** A sweep leaves the caller's state as the callables it invoked left it,
run in the order of the log, however the sweep ends. *)
Lemma sweep_invoked (es : list entry) (s : Machine) :
∃ l, fired (TaskManager_Update es s).2 = fired s ++ l
     ∧ user (TaskManager_Update es s).2 = invoked (heap s) l (user s).
Proof.
revert s. induction es as [|[k p] es IH]; intros s.
- exists []. by rewrite app_nil_r.
- destruct p as [b|]; [| exists []; by rewrite app_nil_r].
  destruct (Task_Update_invoked s b) as (l1 & Hf1 & Hu1).
  pose proof (Task_Update_callables s b) as Hsame.
  simpl. unfold bind, deref; simpl.
  destruct (Task_Update b s) as [[[] | e |] s1]; simpl in *;
    [| by exists l1 | by exists l1].
  destruct (IH s1) as (l2 & Hf2 & Hu2).
  exists (l1 ++ l2). split; [by rewrite Hf2, Hf1, <- app_assoc |].
  rewrite Hu2, invoked_app, Hu1. by apply invoked_ext.
Qed.

End RegistrySweep.

Section RegistryProperties.
Context `{Platform}.

(** C5. [Add(k, tsk)] with a key the registry already holds changes nothing:
the registry is the one before the call, so the incoming Task is not stored,
and the Task stored under [k] keeps its callable, interval and deadline, so
that polling the registry afterwards does what it would have done. *)
Theorem add_existing_key_changes_nothing (mgr : TaskManager) (uid : string)
  (old tsk : unique_ptr) (s : Machine) :
mAllTasks mgr !! uid = Some old →
let r := TaskManager_Add uid tsk mgr s in
∃ mgr' tsk',
  r.1 = Normal (mgr', tsk')
  ∧ mgr' = mgr
  ∧ mAllTasks mgr' !! uid = Some old
  ∧ heap r.2 = heap s
  ∧ ∀ es : list entry, TaskManager_Update es r.2 = TaskManager_Update es s.
Proof.
intros Hold r. subst r.
rewrite TaskManager_Add_present by by rewrite Hold.
by exists mgr, tsk.
Qed.

(** C10. When [Add(key, std::move(tsk))] is turned down because the key is
taken, the caller's pointer is not moved from: it still holds the Task, the
Task is still alive, and the registry and the machine are as before. *)
Theorem rejected_add_leaves_task_with_caller (mgr : TaskManager) (uid : string)
  (tsk : unique_ptr) (s : Machine) :
is_Some (mAllTasks mgr !! uid) →
let r := TaskManager_Add_rvalue uid tsk mgr s in
r.1 = Normal (mgr, tsk)
∧ r.2 = s
∧ ∀ a t, tsk = Some a → heap s !! a = Some t → heap r.2 !! a = Some t.
Proof.
intros Hin r. subst r. unfold TaskManager_Add_rvalue.
by rewrite TaskManager_Add_present.
Qed.

(** C7. [Remove(k)] with a key of the registry deletes the entry and the Task
it owns and leaves the other entries alone; with an absent key it does
nothing and raises nothing; and removing a key twice does what removing it
once does. *)
Theorem remove_deletes_or_does_nothing (mgr : TaskManager) (uid : string) (s : Machine) :
(∀ a t, mAllTasks mgr !! uid = Some (Some a) → heap s !! a = Some t →
   ∃ mgr', TaskManager_Remove uid mgr s
           = (Normal mgr', with_heap (delete a (heap s)) s)
     ∧ mAllTasks mgr' !! uid = None
     ∧ (∀ k, k ≠ uid → mAllTasks mgr' !! k = mAllTasks mgr !! k))
∧ (mAllTasks mgr !! uid = None →
   TaskManager_Remove uid mgr s = (Normal mgr, s))
∧ (r <- TaskManager_Remove uid mgr ;; TaskManager_Remove uid r) s
  = TaskManager_Remove uid mgr s.
Proof.
split_and!.
- intros a t Hin Ha. eexists. split; [by eapply TaskManager_Remove_present |].
  simpl. split; [apply lookup_delete_eq |].
  intros k Hk. by apply lookup_delete_ne.
- apply TaskManager_Remove_absent.
- unfold bind at 1.
  destruct (mAllTasks mgr !! uid) as [p|] eqn:Hin.
  + unfold TaskManager_Remove at 1 3. rewrite Hin.
    unfold bind, unique_ptr_dtor, free, ret.
    destruct p as [a|]; [destruct (heap s !! a) |];
      try done; apply TaskManager_Remove_absent; apply lookup_delete_eq.
  + by rewrite !TaskManager_Remove_absent.
Qed.

(** C9. When the callable of a due Task throws during a sweep, the sweep
ends there: the exception reaches the caller of [Update] as it was thrown,
and the Tasks that come later in the enumeration are not polled. *)
Theorem exception_ends_the_sweep (pre post : list entry) (uid : string)
  (a : address) (t : Task) (e : exception) (s s1 : Machine) :
TaskManager_Update pre s = (Normal tt, s1) →
heap s1 !! a = Some t →
due t s1 →
(mTask t (user s1)).1 = Some e →
Task_Update a s1 = (Thrown e, (Task_Update a s1).2)
∧ TaskManager_Update (pre ++ (uid, Some a) :: post) s
  = (Thrown e, (Task_Update a s1).2)
∧ polled (TaskManager_Update (pre ++ (uid, Some a) :: post) s).2
  = polled s1 ++ [a]
∧ ∀ b, b ≠ a →
    heap (TaskManager_Update (pre ++ (uid, Some a) :: post) s).2 !! b
    = heap s1 !! b.
Proof.
intros Hpre Ht [Hon Hdue] Hthrow.
assert (Hstep : Task_Update a s1 = (Thrown e, (Task_Update a s1).2)).
{ rewrite (Task_Update_due s1 a t) by done; simpl. by rewrite Hthrow. }
assert (Hsweep : TaskManager_Update (pre ++ (uid, Some a) :: post) s
                 = (Thrown e, (Task_Update a s1).2)).
{ rewrite TaskManager_Update_app. unfold bind at 1. rewrite Hpre.
  simpl. unfold bind, deref; simpl. by rewrite Hstep. }
split_and!; [done | done | |].
- rewrite Hsweep; simpl. by rewrite (Task_Update_due s1 a t).
- intros b Hb. rewrite Hsweep; simpl.
  rewrite (Task_Update_due s1 a t) by done; simpl.
  by apply lookup_insert_ne.
Qed.

(** C4. One [Update] of the registry calls [Update] once on each Task the
registry owns, in whatever order the table enumerates them: the sweep returns
when no callable throws, and a sweep that returns has polled every owned Task
once, has invoked no callable twice, and has invoked once the callable of
each Task that was due when the sweep started, the clock never going back.
The caller's state after the sweep is the one the invoked callables leave,
each run once on the state the one before it left. *)
Theorem registry_update_polls_each_task_once (mgr : TaskManager)
  (es : list entry) (s : Machine) :
enumerates es mgr →
owns mgr s →
let r := TaskManager_Update es s in
(callables_return mgr s → r.1 = Normal tt)
∧ (r.1 = Normal tt →
   (∀ k a, mAllTasks mgr !! k = Some (Some a) →
      times a (polled r.2) = S (times a (polled s))
      ∧ (times a (fired r.2) ≤ S (times a (fired s)))%nat)
   ∧ (clock_monotone →
      ∀ k a t, mAllTasks mgr !! k = Some (Some a) → heap s !! a = Some t →
        due t s → times a (fired r.2) = S (times a (fired s))))
∧ (∃ l, fired r.2 = fired s ++ l
        ∧ user r.2 = invoked (heap s) l (user s)
        ∧ (r.1 = Normal tt →
           NoDup l
           ∧ (∀ a, a ∈ l → ∃ k, mAllTasks mgr !! k = Some (Some a))
           ∧ (clock_monotone →
              ∀ k a t, mAllTasks mgr !! k = Some (Some a) →
                heap s !! a = Some t → due t s → a ∈ l))).
Proof.
intros Henum Howns r. subst r.
destruct (enumeration_of_owner es mgr s Henum Howns) as (Hlive & Hdup & Hin).
split_and!.
- intros Hquiet. apply sweep_returns; [done|].
  intros [k p] a t u He Hp Ht. simpl in Hp. subst p.
  apply (Hquiet k a t u); [| done].
  apply elem_of_map_to_list. by rewrite <- Henum.
- intros Hret.
  destruct (sweep_normal es s Hlive Hdup Hret)
    as (Hpolled & _ & l & Hfired & Hsub & Hdue).
  assert (Hl : NoDup l) by by eapply sublist_NoDup.
  split.
  + intros k a Hk. rewrite Hpolled, Hfired, !times_app. split.
    * rewrite (times_NoDup a (addresses es)); [lia | done |].
      apply Hin. by exists k.
    * pose proof (times_NoDup_le a l Hl). lia.
  + intros Hmono k a t Hk Ht Hd. rewrite Hfired, times_app.
    rewrite (times_NoDup a l); [lia | done |].
    apply (Hdue Hmono a t); [| done | done]. apply Hin. by exists k.
- destruct (sweep_invoked es s) as (l & Hfired & Huser).
  exists l. split; [done|]. split; [done|].
  intros Hret.
  destruct (sweep_normal es s Hlive Hdup Hret)
    as (_ & _ & l' & Hfired' & Hsub & Hdue).
  assert (l' = l) as -> by (rewrite Hfired in Hfired'; by apply app_inv_head in Hfired').
  split_and!.
  + by eapply sublist_NoDup.
  + intros a Ha. apply Hin. by eapply elem_of_sublist.
  + intros Hmono k a t Hk Ht Hd.
    apply (Hdue Hmono a t); [| done | done]. apply Hin. by exists k.
Qed.

End RegistryProperties.

(** ** Further properties of the timer *)
Section TaskFurther.
Context `{Platform}.

(** X1. The constructor never reads the two timestamps it leaves
uninitialised: whatever the storage held, it ends with the same armed Task,
bound to the callable, with the interval in nanoseconds and the deadline one
interval after the reading of the clock; it reads the clock once and invokes
nothing. *)
Theorem ctor_ignores_uninitialised_storage (s : Machine) (this : address)
  (junk1 junk2 : Z * Z) (itrvl : Z) (func : callable) :
Task_ctor this junk1 itrvl func s = Task_ctor this junk2 itrvl func s
∧ (Task_ctor this junk1 itrvl func s).1 = Normal tt
∧ heap (Task_ctor this junk1 itrvl func s).2 !! this
  = Some {| mHasSetInterval := true; mTask := func;
            mNextExecStamp :=
              Chrono.nanos_add (clock (reads s))
                (Chrono.wrap64 (itrvl * 1000000000));
            mNanoInterval := Chrono.wrap64 (itrvl * 1000000000) |}
∧ reads (Task_ctor this junk1 itrvl func s).2 = S (reads s)
∧ fired (Task_ctor this junk1 itrvl func s).2 = fired s
∧ user (Task_ctor this junk1 itrvl func s).2 = user s.
Proof.
rewrite !Task_ctor_run; simpl.
split_and!; try done. apply lookup_insert_eq.
Qed.

(** X3. Nothing a caller does with a Task rebinds its callable, disarms it or
frees it: after any sequence of [Update] and [setInterval] calls the Task is
still there with the callable it was constructed with, and armed if it was
armed. *)
Theorem callable_and_arming_are_permanent (ops : list task_op) (s : Machine)
  (this : address) (t : Task) :
heap s !! this = Some t →
∃ t', heap (after_ops ops this s) !! this = Some t'
      ∧ mTask t' = mTask t
      ∧ (mHasSetInterval t = true → mHasSetInterval t' = true).
Proof.
revert s t. induction ops as [|op ops IH]; intros s t Ht; simpl.
- by exists t.
- assert (∃ t1, heap (do_op this op s).2 !! this = Some t1
                ∧ mTask t1 = mTask t
                ∧ (mHasSetInterval t = true → mHasSetInterval t1 = true))
    as (t1 & Ht1 & Hf1 & Ha1).
  { destruct op as [|D]; simpl.
    - destruct (Task_Update_frame s this t Ht)
        as (l & t' & _ & _ & _ & _ & Hh & Hsame & _ & _ & _).
      destruct (mHasSetInterval t) eqn:Hon.
      + destruct (Z.lt_ge_cases (clock (reads s)) (mNextExecStamp t)).
        * rewrite (Task_Update_early s this t) by done; simpl. by exists t.
        * rewrite (Task_Update_due s this t) by done; simpl.
          eexists. rewrite lookup_insert_eq. by split_and!.
      + rewrite (Task_Update_disarmed s this t) by done; simpl. by exists t.
    - rewrite (Task_setIntervalChronoNanos_run s this t D Ht); simpl.
      eexists. rewrite lookup_insert_eq. by split_and!. }
  destruct (IH _ t1 Ht1) as (t' & Ht' & Hf' & Ha').
  exists t'. split_and!; [done | congruence | auto].
Qed.

(** X4. [Update] writes nothing but the deadline of its own Task: the
interval, the armed flag and the callable of the Task are as before, every
other Task is untouched, nothing is allocated or freed, and the clock is read
at most once. *)
Theorem update_changes_only_the_deadline (s : Machine) (this : address) (t : Task) :
heap s !! this = Some t →
∃ stamp,
  heap (Task_Update this s).2 = <[this := set_mNextExecStamp stamp t]> (heap s)
  ∧ (stamp = mNextExecStamp t
     ∨ stamp = Chrono.nanos_add (clock (reads s)) (mNanoInterval t))
  ∧ (∀ b, b ≠ this → heap (Task_Update this s).2 !! b = heap s !! b)
  ∧ same_objects s (Task_Update this s).2
  ∧ (reads (Task_Update this s).2 = reads s
     ∨ reads (Task_Update this s).2 = S (reads s)).
Proof.
intros Ht.
assert (Hid : <[this := set_mNextExecStamp (mNextExecStamp t) t]> (heap s) = heap s).
{ apply insert_id. rewrite Ht. by destruct t. }
assert (Hobj : ∀ t', same_objects s
          {| heap := <[this := t']> (heap s); user := user s; reads := reads s;
             polled := polled s; fired := fired s |}).
{ intros t' a. simpl. destruct (decide (this = a)) as [<- | Hne].
  - rewrite lookup_insert_eq, Ht. by split.
  - by rewrite lookup_insert_ne. }
destruct (mHasSetInterval t) eqn:Hon.
- destruct (Z.lt_ge_cases (clock (reads s)) (mNextExecStamp t)).
  + rewrite (Task_Update_early s this t) by done; simpl.
    exists (mNextExecStamp t). rewrite Hid.
    split_and!; try done; [by left | by right].
  + rewrite (Task_Update_due s this t) by done; simpl.
    eexists. split; [done|]. split_and!; [by right | | | by right].
    * intros b Hb. by apply lookup_insert_ne.
    * intros a. apply (Hobj _ a).
- rewrite (Task_Update_disarmed s this t) by done; simpl.
  exists (mNextExecStamp t). rewrite Hid.
  split_and!; try done; [by left | by left].
Qed.

(** X5. Two invocations of a callable are at least one interval apart: once
an [Update] has invoked it at time [now], no [Update] invokes it again while
the clock reads less than [now] plus the interval, whether the callable
returned or threw. *)
Theorem fires_are_one_interval_apart (s : Machine) (this : address) (t : Task)
  (k : nat) :
heap s !! this = Some t →
due t s →
let now := clock (reads s) in
let s1 := (Task_Update this s).2 in
Chrono.in_int64 (now + mNanoInterval t) →
(∀ i : nat, (i < k)%nat → clock (reads s1 + i) < now + mNanoInterval t) →
fired s1 = fired s ++ [this]
∧ fired (updates k this s1) = fired s ++ [this]
∧ user (updates k this s1) = (mTask t (user s)).2.
Proof.
intros Ht [Hon Hdue] now s1 Hfit Hearly. subst s1.
rewrite (Task_Update_due s this t) in * by done; simpl in *.
split; [done|].
erewrite updates_early; simpl; [done | apply lookup_insert_eq | done |].
simpl. fold now. by rewrite nanos_add_exact.
Qed.

Lemma armed_overdue_step (D : Z) (this : address) (s : Machine) :
clock_monotone → D <= 0 → (∀ n, Chrono.in_int64 (clock n + D)) →
armed_overdue D this s →
armed_overdue D this (Task_Update this s).2
∧ fired (Task_Update this s).2 = fired s ++ [this].
Proof.
intros Hmono Hneg Hfit (t & Ht & Hon & HD & Hdue).
rewrite (Task_Update_due s this t) by done; simpl.
split; [|done].
exists (rescheduled (clock (reads s)) t); simpl.
rewrite lookup_insert_eq. split_and!; try done.
rewrite HD, nanos_add_exact by apply Hfit.
pose proof (Hmono (reads s) (S (reads s))). lia.
Qed.

Lemma armed_overdue_updates (D : Z) (n : nat) (this : address)
  (s : Machine) (t : Task) :
clock_monotone → D <= 0 → (∀ n, Chrono.in_int64 (clock n + D)) →
armed_overdue D this s →
heap s !! this = Some t →
fired (updates n this s) = fired s ++ replicate n this
∧ user (updates n this s) = Nat.iter n (λ u, (mTask t u).2) (user s).
Proof.
intros Hmono Hneg Hfit. revert s t.
induction n as [|n IH]; intros s t Hs Ht; simpl; [by rewrite app_nil_r|].
destruct (armed_overdue_step D this s Hmono Hneg Hfit Hs) as [Hs' Hf].
destruct Hs as (t0 & Ht0 & Hon & _ & Hdue).
assert (t0 = t) as -> by congruence.
assert (Hstep : heap (Task_Update this s).2 !! this
                = Some (rescheduled (clock (reads s)) t)
                ∧ user (Task_Update this s).2 = (mTask t (user s)).2).
{ rewrite (Task_Update_due s this t) by done; simpl.
  by rewrite lookup_insert_eq. }
destruct Hstep as [Ht1 Hu1].
destruct (IH _ _ Hs' Ht1) as [Hfn Hun].
split.
- rewrite Hfn, Hf. by rewrite <- app_assoc.
- rewrite Hun, Hu1. symmetry.
  exact (Nat.iter_succ_r n (λ u, (mTask t u).2) (user s)).
Qed.

(** X6. An interval that is not positive makes the Task fire at every poll:
once armed with such an interval, each of any number of [Update] calls
invokes the callable, the clock never going back, so that after [n] calls
the callable has run [n] times on the caller's state. *)
Theorem nonpositive_interval_fires_on_every_poll (s : Machine) (this : address)
  (t : Task) (D : Z) (n : nat) :
clock_monotone →
D <= 0 →
(∀ m, Chrono.in_int64 (clock m + D)) →
heap s !! this = Some t →
let s0 := (Task_setIntervalChronoNanos this D s).2 in
fired (updates n this s0) = fired s ++ replicate n this
∧ user (updates n this s0) = Nat.iter n (λ u, (mTask t u).2) (user s).
Proof.
intros Hmono Hneg Hfit Ht s0.
set (t0 := {| mHasSetInterval := true; mTask := mTask t;
              mNextExecStamp := Chrono.nanos_add (clock (reads s)) D;
              mNanoInterval := D |}).
assert (Hs0 : heap s0 !! this = Some t0 ∧ fired s0 = fired s ∧ user s0 = user s).
{ subst s0. rewrite (Task_setIntervalChronoNanos_run s this t D Ht); simpl.
  by rewrite lookup_insert_eq. }
destruct Hs0 as (Ht0 & Hf0 & Hu0).
assert (H0 : armed_overdue D this s0).
{ exists t0. split; [done|]. simpl. split_and!; try done.
  subst s0. rewrite (Task_setIntervalChronoNanos_run s this t D Ht); simpl.
  rewrite nanos_add_exact by apply Hfit.
  pose proof (Hmono (reads s) (S (reads s))). lia. }
destruct (armed_overdue_updates D n this s0 t0 Hmono Hneg Hfit H0 Ht0) as [Hf Hu].
by rewrite Hf, Hu, Hf0, Hu0.
Qed.

(** X7. Setting the interval cancels a fire that was pending: whatever the
deadline of the Task was, after [setIntervalChronoNanos(D)] at time [now] no
[Update] invokes the callable while the clock reads less than [now + D]. *)
Theorem rearming_cancels_pending_fire (s : Machine) (this : address) (t : Task)
  (D : Z) (k : nat) :
heap s !! this = Some t →
let now := clock (reads s) in
let s1 := (Task_setIntervalChronoNanos this D s).2 in
Chrono.in_int64 (now + D) →
(∀ i : nat, (i < k)%nat → clock (reads s1 + i) < now + D) →
fired (updates k this s1) = fired s
∧ user (updates k this s1) = user s.
Proof.
intros Ht now s1 Hfit Hearly. subst s1.
rewrite (Task_setIntervalChronoNanos_run s this t D Ht) in *; simpl in *.
erewrite updates_early; simpl; [done | apply lookup_insert_eq | done |].
simpl. fold now. by rewrite nanos_add_exact.
Qed.

(** X2. The three wrappers convert their unit without loss when the result
fits the 64-bit nanosecond count: [setIntervalSecs(x)], [setIntervalMillis(x)]
and [setIntervalNanos(x)] called at time [now] arm the Task with an interval
of [x] times 10^9, 10^6 and 1 nanoseconds and a deadline one such interval
after [now]. *)
Theorem interval_wrappers_scale_to_nanoseconds (s : Machine) (this : address)
  (t : Task) (x : Z) :
heap s !! this = Some t →
0 <= x →
let now := clock (reads s) in
let armed_with (D : Z) :=
  Some {| mHasSetInterval := true; mTask := mTask t;
          mNextExecStamp := now + D; mNanoInterval := D |} in
(Chrono.in_int64 (now + x * 1000000000) → x * 1000000000 <= Chrono.int64_max →
   heap (Task_setIntervalSecs this x s).2 !! this = armed_with (x * 1000000000))
∧ (Chrono.in_int64 (now + x * 1000000) → x * 1000000 <= Chrono.int64_max →
   heap (Task_setIntervalMillis this x s).2 !! this = armed_with (x * 1000000))
∧ (Chrono.in_int64 (now + x) → x <= Chrono.int64_max →
   heap (Task_setIntervalNanos this x s).2 !! this = armed_with x).
Proof.
intros Ht Hx now armed_with. subst armed_with. split_and!; intros Hfit Hmax.
- rewrite Task_setIntervalSecs_nanos by done.
  rewrite (Task_setIntervalChronoNanos_run s this t _ Ht); simpl.
  rewrite lookup_insert_eq. fold now. by rewrite nanos_add_exact.
- rewrite Task_setIntervalMillis_nanos by done.
  rewrite (Task_setIntervalChronoNanos_run s this t _ Ht); simpl.
  rewrite lookup_insert_eq. fold now. by rewrite nanos_add_exact.
- rewrite Task_setIntervalNanos_nanos by done.
  rewrite (Task_setIntervalChronoNanos_run s this t _ Ht); simpl.
  rewrite lookup_insert_eq. fold now. by rewrite nanos_add_exact.
Qed.

(** What [n] polls of an armed Task with a non-negative interval add up to:
[f] invocations, and a deadline that moved by at least [f] intervals and, if
it moved, lies at most one interval after the last reading of the clock. *)
Lemma polls_move_the_deadline (n : nat) (this : address) (I : Z) :
clock_monotone → 0 <= I → (∀ m, Chrono.in_int64 (clock m + I)) →
∀ (s : Machine) (t : Task),
  heap s !! this = Some t → mHasSetInterval t = true → mNanoInterval t = I →
  ∃ (f : nat) (t' : Task),
    fired (updates n this s) = fired s ++ replicate f this
    ∧ heap (updates n this s) !! this = Some t'
    ∧ (f = O → mNextExecStamp t' = mNextExecStamp t)
    ∧ ((1 ≤ f)%nat →
       mNextExecStamp t + Z.of_nat f * I <= mNextExecStamp t'
       ∧ mNextExecStamp t' <= clock (reads s + n - 1) + I).
Proof.
intros Hmono HI Hfit.
induction n as [|n IH]; intros s t Ht Hon Hitv; simpl.
- exists O, t. rewrite app_nil_r. split_and!; [done | done | done | lia].
- destruct (Z.lt_ge_cases (clock (reads s)) (mNextExecStamp t)) as [Hearly | Hdue].
  + rewrite (Task_Update_early s this t) by done. simpl.
    set (s1 := {| heap := heap s; user := user s; reads := S (reads s);
                  polled := polled s ++ [this]; fired := fired s |}).
    destruct (IH s1 t Ht Hon Hitv) as (f & t' & Hf & Ht' & H0 & H1).
    simpl in *. exists f, t'. split_and!; [done | done | done |].
    intros Hpos. destruct (H1 Hpos) as [Hlo Hhi]. split; [done|].
    by replace (reads s + S n - 1)%nat with (S (reads s) + n - 1)%nat by lia.
  + rewrite (Task_Update_due s this t) by done.
    set (t1 := rescheduled (clock (reads s)) t).
    assert (Hnext1 : mNextExecStamp t1 = clock (reads s) + I).
    { unfold t1, rescheduled; simpl. rewrite Hitv. by apply nanos_add_exact. }
    simpl.
    set (s1 := {| heap := <[this := t1]> (heap s); user := (mTask t (user s)).2;
                  reads := S (reads s); polled := polled s ++ [this];
                  fired := fired s ++ [this] |}).
    destruct (IH s1 t1) as (f & t' & Hf & Ht' & H0 & H1);
      [apply lookup_insert_eq | done | done |].
    simpl in *. exists (S f), t'. split_and!.
    * rewrite Hf. simpl. by rewrite <- app_assoc.
    * done.
    * lia.
    * intros _. rewrite Hnext1 in *.
      replace (reads s + S n - 1)%nat with (reads s + n)%nat by lia.
      destruct f as [|f].
      -- rewrite H0 by done. split; [lia |].
         pose proof (Hmono (reads s) (reads s + n)%nat). lia.
      -- destruct H1 as [Hlo Hhi]; [lia |]. split; [lia |].
         by rewrite Nat.sub_0_r in Hhi.
Qed.

(** X8. The callable runs at most once per interval over any stretch of
polling: [n] successive polls of an armed Task with a non-negative interval
[I] and first deadline [d] invoke it [f] times, and if [f] is not zero then
[d + f * I] is at most the last reading of the clock plus [I]. *)
Theorem invocations_bounded_by_elapsed_time (n : nat) (s : Machine)
  (this : address) (t : Task) :
clock_monotone →
0 <= mNanoInterval t →
(∀ m, Chrono.in_int64 (clock m + mNanoInterval t)) →
heap s !! this = Some t →
mHasSetInterval t = true →
∃ f : nat,
  fired (updates n this s) = fired s ++ replicate f this
  ∧ (f = O
     ∨ mNextExecStamp t + Z.of_nat f * mNanoInterval t
       <= clock (reads s + n - 1) + mNanoInterval t).
Proof.
intros Hmono HI Hfit Ht Hon.
destruct (polls_move_the_deadline n this (mNanoInterval t) Hmono HI Hfit
            s t Ht Hon eq_refl) as (f & t' & Hf & _ & _ & H1).
exists f. split; [done|].
destruct f as [|f]; [by left | right].
destruct H1 as [Hlo Hhi]; lia.
Qed.

End TaskFurther.

(** ** Further properties of the registry *)
Section RegistryFurther.
Context `{Platform}.

(** One [Update] leaves the other Tasks and their counts alone, whether its
own Task is live or not. *)
Lemma Task_Update_touches (s : Machine) (b a : address) :
a ≠ b →
heap (Task_Update b s).2 !! a = heap s !! a
∧ times a (polled (Task_Update b s).2) = times a (polled s)
∧ times a (fired (Task_Update b s).2) = times a (fired s).
Proof.
intros Hne.
assert (Hb : times a [b] = O).
{ apply times_not_in. by intros ?%list_elem_of_singleton. }
destruct (heap s !! b) as [t|] eqn:Ht.
- destruct (Task_Update_frame s b t Ht)
    as (l & t' & Hf & Hl & Hp & _ & Hh & _).
  rewrite Hh, Hp, Hf, !times_app, Hb, lookup_insert_ne by done.
  split_and!; [done | lia |].
  destruct Hl as [-> | ->]; [done | rewrite Hb; lia].
- rewrite Task_Update_dead by done; simpl.
  rewrite times_app, Hb. split_and!; [done | lia | done].
Qed.

Lemma Task_Update_same_objects (s : Machine) (b : address) :
same_objects s (Task_Update b s).2.
Proof.
intros a. destruct (heap s !! b) as [t|] eqn:Ht.
- destruct (Task_Update_frame s b t Ht) as (l & t' & _ & _ & _ & _ & Hh & _).
  rewrite Hh. destruct (decide (b = a)) as [<- | Hne].
  + rewrite lookup_insert_eq, Ht. by split.
  + by rewrite lookup_insert_ne.
- by rewrite Task_Update_dead.
Qed.

Lemma sweep_frame (es : list entry) (s : Machine) (a : address) :
a ∉ addresses es →
heap (TaskManager_Update es s).2 !! a = heap s !! a
∧ times a (polled (TaskManager_Update es s).2) = times a (polled s)
∧ times a (fired (TaskManager_Update es s).2) = times a (fired s).
Proof.
revert s. induction es as [|[k p] es IH]; intros s Ha; [done|].
destruct p as [b|]; [|done].
change (addresses ((k, Some b) :: es)) with (b :: addresses es) in Ha.
apply not_elem_of_cons in Ha as [Hne Ha].
destruct (Task_Update_touches s b a Hne) as (Hh & Hp & Hf).
simpl. unfold bind, deref; simpl.
destruct (Task_Update b s) as [[[] | e |] s1]; simpl in *; try done.
destruct (IH s1 Ha) as (Hh' & Hp' & Hf').
split_and!; congruence.
Qed.

Lemma sweep_same_objects (es : list entry) (s : Machine) :
same_objects s (TaskManager_Update es s).2.
Proof.
revert s. induction es as [|[k p] es IH]; intros s; [done|].
destruct p as [b|]; [|done].
pose proof (Task_Update_same_objects s b) as Hb.
simpl. unfold bind, deref; simpl.
destruct (Task_Update b s) as [[[] | e |] s1]; simpl in *; try done.
intros a. rewrite <- (Hb a). apply IH.
Qed.

(** X9. [Add] followed by [Remove] of the same key, absent before, gives the
registry back as it was; the caller's pointer is null and the Task is
destroyed: the registry never hands a Task back. *)
Theorem add_then_remove_restores_registry (mgr : TaskManager) (uid : string)
  (a : address) (t : Task) (s : Machine) :
mAllTasks mgr !! uid = None →
heap s !! a = Some t →
(r <- TaskManager_Add uid (Some a) mgr ;;
 mgr' <- TaskManager_Remove uid r.1 ;;
 ret (mgr', r.2)) s
= (Normal (mgr, None), with_heap (delete a (heap s)) s)
∧ heap (with_heap (delete a (heap s)) s) !! a = None.
Proof.
intros Hfree Ha. split; [| apply lookup_delete_eq].
unfold bind at 1. rewrite TaskManager_Add_absent by done.
unfold bind at 1; simpl.
erewrite TaskManager_Remove_present; [| apply lookup_insert_eq | done].
simpl. rewrite delete_insert_id by done. by destruct mgr.
Qed.

(** X10. A removed key is free again: [Remove(k)] followed by [Add(k, tsk)]
stores the new Task under [k], takes it from the caller, and the Task that
was stored under [k] is destroyed. *)
Theorem removed_key_can_be_reused (mgr : TaskManager) (uid : string)
  (a b : address) (t : Task) (s : Machine) :
mAllTasks mgr !! uid = Some (Some a) →
heap s !! a = Some t →
(mgr' <- TaskManager_Remove uid mgr ;;
 TaskManager_Add uid (Some b) mgr') s
= (Normal ({| mAllTasks := <[uid := Some b]> (mAllTasks mgr) |}, None),
   with_heap (delete a (heap s)) s).
Proof.
intros Hin Ha. unfold bind.
rewrite (TaskManager_Remove_present uid mgr s a t) by done.
rewrite TaskManager_Add_absent by apply lookup_delete_eq.
simpl. by rewrite insert_delete_eq.
Qed.

(** X11. [Add] does not check for a null pointer: with a free key it stores
the null pointer, and from then on no [Update] of the registry returns, in
whatever order the table is enumerated, since [curr.second->Update()]
dereferences it; [Remove] of the key deletes the entry without touching the
heap. *)
Theorem null_pointer_entry_breaks_update (mgr : TaskManager) (uid : string)
  (s : Machine) :
mAllTasks mgr !! uid = None →
∃ mgr',
  TaskManager_Add uid None mgr s = (Normal (mgr', None), s)
  ∧ mAllTasks mgr' !! uid = Some None
  ∧ (∀ es s', enumerates es mgr' → (TaskManager_Update es s').1 ≠ Normal tt)
  ∧ (∀ s', TaskManager_Remove uid mgr' s' = (Normal mgr, s')).
Proof.
intros Hfree. eexists.
rewrite TaskManager_Add_absent by done. split; [done|]. simpl.
split; [apply lookup_insert_eq |]. split.
- intros es s' Henum.
  assert (Hin : (uid, None) ∈ es).
  { unfold enumerates in Henum. rewrite Henum.
    apply elem_of_map_to_list. simpl. apply lookup_insert_eq. }
  apply list_elem_of_split in Hin as (pre & post & ->).
  rewrite TaskManager_Update_app. unfold bind at 1.
  destruct (TaskManager_Update pre s') as [[[] | e |] s1]; done.
- intros s'. unfold TaskManager_Remove; simpl.
  rewrite lookup_insert_eq. unfold bind, unique_ptr_dtor, ret.
  rewrite delete_insert_id by done. by destruct mgr.
Qed.

(** X12. The keys [Add(tsk)] derives from the addresses of two different
Tasks are different: added one after the other under free keys, both Tasks
are stored, each under its own key, and both callers' pointers are null. *)
Theorem auto_keys_do_not_collide (mgr : TaskManager) (a b : address) (s : Machine) :
a ≠ b →
mAllTasks mgr !! pretty (Npos a) = None →
mAllTasks mgr !! pretty (Npos b) = None →
∃ mgr',
  (r <- TaskManager_Add_auto (Some a) mgr ;;
   r' <- TaskManager_Add_auto (Some b) r.1 ;;
   ret (r'.1, r.2, r'.2)) s
  = (Normal (mgr', None, None), s)
  ∧ mAllTasks mgr' !! pretty (Npos a) = Some (Some a)
  ∧ mAllTasks mgr' !! pretty (Npos b) = Some (Some b).
Proof.
intros Hne Ha Hb.
assert (Hkeys : pretty (Npos a) ≠ pretty (Npos b)).
{ intros Heq. apply Hne. apply (auto_key_inj (Some a) (Some b)) in Heq. congruence. }
eexists. unfold bind, TaskManager_Add_auto; simpl.
rewrite TaskManager_Add_absent by done; simpl.
rewrite TaskManager_Add_absent by (simpl; by rewrite lookup_insert_ne).
simpl. split; [done|]. simpl. split.
- rewrite lookup_insert_ne by done. apply lookup_insert_eq.
- apply lookup_insert_eq.
Qed.

(** X13. The registry keeps owning its Tasks: when every stored pointer is
non-null, live and held under one key only, this is still so after [Add] of
a live Task the registry does not hold yet, after [Remove] of any key, and
after [Update], whether [Update] returned or was cut short. *)
Theorem registry_operations_keep_ownership (mgr : TaskManager) (s : Machine) :
owns mgr s →
(∀ uid a t, heap s !! a = Some t → (∀ k, mAllTasks mgr !! k ≠ Some (Some a)) →
   ∃ mgr' tsk', TaskManager_Add uid (Some a) mgr s = (Normal (mgr', tsk'), s)
                ∧ owns mgr' s)
∧ (∀ uid, ∃ mgr', (TaskManager_Remove uid mgr s).1 = Normal mgr'
                  ∧ owns mgr' (TaskManager_Remove uid mgr s).2)
∧ (∀ es, owns mgr (TaskManager_Update es s).2).
Proof.
intros Howns. split_and!.
- intros uid a t Ha Hfresh.
  destruct (owns_Add uid a t mgr s Howns Ha Hfresh) as (mgr' & tsk' & Hr & Ho & _).
  by exists mgr', tsk'.
- intros uid. by apply owns_Remove.
- intros es. destruct Howns as [Hlive Hinj]. split; [|done].
  intros k p Hk. destruct (Hlive k p Hk) as (a & -> & Ha).
  exists a. split; [done|]. by apply sweep_same_objects.
Qed.

(** X14. [Update] reaches only the Tasks the table holds: a Task stored under
no key is neither polled nor invoked nor changed by a sweep, however the
sweep ends; and no sweep allocates or frees a Task. *)
Theorem update_touches_only_stored_tasks (mgr : TaskManager) (es : list entry)
  (s : Machine) (a : address) :
enumerates es mgr →
(∀ k, mAllTasks mgr !! k ≠ Some (Some a)) →
heap (TaskManager_Update es s).2 !! a = heap s !! a
∧ times a (polled (TaskManager_Update es s).2) = times a (polled s)
∧ times a (fired (TaskManager_Update es s).2) = times a (fired s)
∧ same_objects s (TaskManager_Update es s).2.
Proof.
intros Henum Hfree.
assert (Ha : a ∉ addresses es).
{ unfold addresses. rewrite list_elem_of_omap. intros ([k p] & He & Hp).
  simpl in Hp. subst p. apply (Hfree k).
  apply elem_of_map_to_list. by rewrite <- Henum. }
destruct (sweep_frame es s a Ha) as (Hh & Hp & Hf).
split_and!; try done. apply sweep_same_objects.
Qed.

(** X15. Removing a key stops its Task for good: after [Remove(k)] the Task
that was stored under [k] is destroyed, and no later [Update] of the registry
polls it or invokes its callable, even when its deadline had passed. *)
Theorem removed_task_is_never_polled_again (mgr : TaskManager) (uid : string)
  (a : address) (s : Machine) :
owns mgr s →
mAllTasks mgr !! uid = Some (Some a) →
∃ mgr',
  (TaskManager_Remove uid mgr s).1 = Normal mgr'
  ∧ heap (TaskManager_Remove uid mgr s).2 !! a = None
  ∧ ∀ es, enumerates es mgr' →
      let s' := (TaskManager_Update es (TaskManager_Remove uid mgr s).2).2 in
      times a (polled s') = times a (polled s)
      ∧ times a (fired s') = times a (fired s)
      ∧ heap s' !! a = None.
Proof.
intros [Hlive Hinj] Hin.
destruct (Hlive uid _ Hin) as (a' & [= <-] & [t Ha]).
rewrite (TaskManager_Remove_present uid mgr s a t) by done; simpl.
eexists. split; [done|]. split; [apply lookup_delete_eq |].
intros es Henum.
assert (Hgone : a ∉ addresses es).
{ unfold addresses. rewrite list_elem_of_omap. intros ([k p] & He & Hp).
  simpl in Hp. subst p. unfold enumerates in Henum. rewrite Henum in He.
  apply elem_of_map_to_list in He. simpl in He.
  apply lookup_delete_Some in He as [Hne He].
  apply Hne. by apply (Hinj uid k a). }
destruct (sweep_frame es (with_heap (delete a (heap s)) s) a Hgone)
  as (Hh & Hp & Hf).
split_and!; [done | done |]. rewrite Hh. apply lookup_delete_eq.
Qed.

End RegistryFurther.

(** ** The sample program *)

Lemma last_char_pretty_N_go (x : N) (c : Ascii.ascii) (s : string) :
last_char (pretty_N_go x (String c s)) = last_char (String c s).
Proof.
revert c s. induction (N.lt_wf_0 x) as [x _ IH]; intros c s.
assert (x = 0 ∨ 0 < x)%N as [-> | Hpos] by lia; [done|].
rewrite pretty_N_go_step by done.
rewrite IH by by apply N.div_lt. done.
Qed.

(** The key [Add(tsk)] derives from an address ends with a digit, so it is
none of the keys the program chooses. *)
Lemma auto_key_not_chosen (a : address) :
pretty (Npos a) ≠ "1Sec" ∧ pretty (Npos a) ≠ "10Sec".
Proof.
assert (Hlast : ∃ d, last_char (pretty (Npos a)) = Some (pretty_N_char d)).
{ exists (Npos a `mod` 10)%N. unfold pretty, pretty_N.
  rewrite decide_False by done.
  rewrite pretty_N_go_step by lia. apply last_char_pretty_N_go. }
destruct Hlast as [d Hd].
split; intros Heq; rewrite Heq in Hd; simpl in Hd;
  unfold pretty_N_char in Hd; by repeat case_match.
Qed.

Section Allocation.
Context `{Platform}.

Lemma make_unique_Task_run (s : Machine) (a : address) (junk : Z * Z)
  (itrvl : Z) (func : callable) :
heap s !! a = None →
make_unique_Task a junk itrvl func s =
  (Normal (Some a),
   {| heap := <[a := {| mHasSetInterval := true; mTask := func;
                        mNextExecStamp :=
                          Chrono.nanos_add (clock (reads s))
                            (Chrono.wrap64 (itrvl * 1000000000));
                        mNanoInterval := Chrono.wrap64 (itrvl * 1000000000) |}]>
              (heap s);
      user := user s; reads := S (reads s);
      polled := polled s; fired := fired s |}).
Proof.
intros Hfree. unfold make_unique_Task. rewrite Hfree.
unfold bind. by rewrite Task_ctor_run.
Qed.

(** An [Update] whose callable returns: it returns, and either nothing was
invoked or the callable ran once on the caller's state. *)
Lemma Task_Update_returning (s : Machine) (b : address) (t : Task) :
heap s !! b = Some t →
(mTask t (user s)).1 = None →
(Task_Update b s).1 = Normal tt
∧ ((fired (Task_Update b s).2 = fired s ∧ user (Task_Update b s).2 = user s)
   ∨ (fired (Task_Update b s).2 = fired s ++ [b]
      ∧ user (Task_Update b s).2 = (mTask t (user s)).2)).
Proof.
intros Ht Hret.
destruct (mHasSetInterval t) eqn:Hon.
- destruct (Z.lt_ge_cases (clock (reads s)) (mNextExecStamp t)).
  + rewrite (Task_Update_early s b t) by done. split; [done | by left].
  + rewrite (Task_Update_due s b t) by done; simpl.
    rewrite Hret. split; [done | by right].
- rewrite (Task_Update_disarmed s b t) by done. split; [done | by left].
Qed.

End Allocation.

Section SampleProgram.
Variable clk : nat → Z.
Variables a1 a2 a3 a4 : address.
Hypothesis distinct : NoDup [a1; a2; a3; a4].

Local Abbreviation P := (Sample.platform clk).
Local Abbreviation layout := (Sample.layout clk a1 a2 a3 a4).
Local Abbreviation consistent := (Sample.consistent clk a1 a2 a3 a4).
Local Abbreviation observed := (Sample.observed a1 a2 a3 a4).
Local Abbreviation bound := (Sample.bound clk a1 a2 a3 a4).
Local Abbreviation full := (Sample.full a1 a2 a3 a4).
Local Abbreviation reduced := (Sample.reduced a1 a2 a3 a4).

Lemma sample_addresses_differ :
a1 ≠ a2 ∧ a1 ≠ a3 ∧ a1 ≠ a4 ∧ a2 ≠ a3 ∧ a2 ≠ a4 ∧ a3 ≠ a4.
Proof.
pose proof distinct as Hd.
rewrite !NoDup_cons, !not_elem_of_cons in Hd. tauto.
Qed.

(** Running the callable of [a] on the state observed after [l] gives the
state observed after [l ++ [a]], and does not throw. *)
Lemma bound_run (a : address) (l : list address) :
(bound a (observed l)).1 = None
∧ (bound a (observed l)).2 = observed (l ++ [a]).
Proof.
unfold Sample.bound, Sample.observed, Sample.print_and_flag, Sample.print.
destruct (decide (a = a4)) as [-> | Hne]; simpl; (split; [done|]);
  rewrite map_app; simpl; f_equal.
- symmetry. apply bool_decide_eq_true_2.
  apply elem_of_app. right. by apply list_elem_of_singleton.
- apply bool_decide_ext. rewrite elem_of_app, list_elem_of_singleton.
  split; [by left | intros [Hin | Heq]; [done | congruence]].
Qed.

Lemma all_live_same_objects (es : list entry) (s s' : @Machine P) :
same_objects s s' → all_live es s → all_live es s'.
Proof.
intros Hsame Hlive. unfold all_live in *.
eapply Forall_impl; [exact Hlive |].
intros e (a & He & Ha). exists a. split; [done|]. by apply Hsame.
Qed.

Lemma step_sample (s : @Machine P) (b : address) :
is_Some (heap s !! b) → layout s → consistent s →
(Task_Update b s).1 = Normal tt
∧ layout (Task_Update b s).2
∧ consistent (Task_Update b s).2
∧ ∃ l, fired (Task_Update b s).2 = fired s ++ l.
Proof.
intros [t Ht] Hlay Hcon.
pose proof (Hlay b t Ht) as Hb.
unfold Sample.consistent in Hcon.
destruct (bound_run b (fired s)) as [Hnone Hnext].
rewrite <- Hcon, <- Hb in Hnone, Hnext.
destruct (Task_Update_returning s b t Ht Hnone) as [Hret Hcases].
split; [done|]. split.
- intros a t' Ha.
  pose proof (Task_Update_callables s b a) as Hc. rewrite Ha in Hc. simpl in Hc.
  destruct (heap s !! a) as [t0|] eqn:H0; [|done].
  injection Hc as Hc. rewrite Hc. by apply Hlay.
- destruct Hcases as [[Hf Hu] | [Hf Hu]]; unfold Sample.consistent.
  + split; [by rewrite Hf, Hu | exists []; by rewrite app_nil_r].
  + split; [by rewrite Hf, Hu | by exists [b]].
Qed.

Lemma sweep_sample (es : list entry) (s : @Machine P) :
all_live es s → layout s → consistent s →
(TaskManager_Update es s).1 = Normal tt
∧ layout (TaskManager_Update es s).2
∧ consistent (TaskManager_Update es s).2
∧ ∃ l, fired (TaskManager_Update es s).2 = fired s ++ l.
Proof.
revert s. induction es as [|[k p] es IH]; intros s Hlive Hlay Hcon.
- split_and!; [done | done | done |]. exists []. by rewrite app_nil_r.
- apply Forall_cons in Hlive as [(b & Hb & Hlb) Hlive]. simpl in Hb. subst p.
  destruct (step_sample s b Hlb Hlay Hcon) as (Hret & Hlay1 & Hcon1 & l1 & Hf1).
  pose proof (Task_Update_same_objects s b) as Hsame.
  simpl. unfold bind, deref; simpl.
  destruct (Task_Update b s) as [o1 s1]; simpl in *. subst o1.
  destruct (IH s1) as (Hret2 & Hlay2 & Hcon2 & l2 & Hf2);
    [by eapply all_live_same_objects | done | done |].
  split_and!; [done | done | done |].
  exists (l1 ++ l2). by rewrite Hf2, Hf1, <- app_assoc.
Qed.

Lemma sample_keys_differ :
pretty (Npos a2) ≠ "1Sec" ∧ pretty (Npos a2) ≠ "10Sec"
∧ pretty (Npos a4) ≠ "1Sec" ∧ pretty (Npos a4) ≠ "10Sec"
∧ pretty (Npos a2) ≠ pretty (Npos a4).
Proof.
destruct (auto_key_not_chosen a2) as [H21 H210].
destruct (auto_key_not_chosen a4) as [H41 H410].
split_and!; try done.
intros Heq. apply (auto_key_inj (Some a2) (Some a4)) in Heq.
destruct sample_addresses_differ as (_ & _ & _ & _ & Hne & _). congruence.
Qed.

Lemma full_lookup (k : string) (p : unique_ptr) :
mAllTasks full !! k = Some p →
(k = "1Sec" ∧ p = Some a1) ∨ p = Some a2 ∨ p = Some a3 ∨ p = Some a4.
Proof.
unfold Sample.full; simpl. intros Hk.
apply lookup_insert_Some in Hk as [[_ <-] | [_ Hk]]; [by auto |].
apply lookup_insert_Some in Hk as [[_ <-] | [_ Hk]]; [by auto |].
apply lookup_insert_Some in Hk as [[_ <-] | [_ Hk]]; [by auto |].
apply lookup_insert_Some in Hk as [[<- <-] | [_ Hk]]; [by auto |].
by rewrite lookup_empty in Hk.
Qed.

Lemma full_first : mAllTasks full !! "1Sec" = Some (Some a1).
Proof.
destruct sample_keys_differ as (K21 & K210 & K41 & K410 & K24).
unfold Sample.full; simpl.
rewrite !lookup_insert_ne by done. apply lookup_insert_eq.
Qed.

Lemma reduced_lookup (k : string) (p : unique_ptr) :
mAllTasks reduced !! k = Some p →
p = Some a2 ∨ p = Some a3 ∨ p = Some a4.
Proof.
unfold Sample.reduced; simpl. intros [Hne Hk]%lookup_delete_Some.
apply full_lookup in Hk as [[Heq _] | Hk]; [congruence | done].
Qed.

Lemma setup_run (j1 j2 j3 j4 : Z * Z) :
∃ s0 : @Machine P,
  Sample.setup clk a1 a2 a3 a4 j1 j2 j3 j4 (Sample.start clk) = (Normal full, s0)
  ∧ Sample.invariant clk a1 a2 a3 a4 (full, false) s0.
Proof.
destruct sample_addresses_differ as (H12 & H13 & H14 & H23 & H24 & H34).
destruct sample_keys_differ as (K21 & K210 & K41 & K410 & K24).
eexists. unfold Sample.setup.
unfold bind at 1. rewrite make_unique_Task_run by apply lookup_empty.
unfold bind at 1. rewrite make_unique_Task_run by (simpl; by rewrite lookup_insert_ne).
unfold bind at 1. rewrite make_unique_Task_run by (simpl; by rewrite !lookup_insert_ne).
unfold bind at 1. rewrite make_unique_Task_run by (simpl; by rewrite !lookup_insert_ne).
unfold bind at 1. rewrite TaskManager_Add_absent by apply lookup_empty.
unfold bind at 1, TaskManager_Add_auto.
rewrite TaskManager_Add_absent by (simpl; by rewrite lookup_insert_ne).
unfold bind at 1.
rewrite TaskManager_Add_absent by (simpl; by rewrite !lookup_insert_ne).
unfold bind at 1.
rewrite TaskManager_Add_absent by (simpl; by rewrite !lookup_insert_ne).
simpl. split; [reflexivity |].
unfold Sample.invariant; simpl. split_and!.
- intros a t Ha. simpl in Ha. unfold Sample.bound, Sample.text.
  apply lookup_insert_Some in Ha as [[<- <-] | [? Ha]];
    [simpl; by repeat (case_decide; try congruence) |].
  apply lookup_insert_Some in Ha as [[<- <-] | [? Ha]];
    [simpl; by repeat (case_decide; try congruence) |].
  apply lookup_insert_Some in Ha as [[<- <-] | [? Ha]];
    [simpl; by repeat (case_decide; try congruence) |].
  apply lookup_insert_Some in Ha as [[<- <-] | [? Ha]];
    [simpl; by repeat (case_decide; try congruence) |].
  by rewrite lookup_empty in Ha.
- done.
- done.
- rewrite !lookup_insert_ne by done. by rewrite lookup_insert_eq.
- rewrite !lookup_insert_ne by done. by rewrite lookup_insert_eq.
- by rewrite lookup_insert_eq.
- done.
- rewrite !lookup_insert_ne by done. by rewrite lookup_insert_eq.
Qed.

Lemma iteration_run (order : TaskManager → list entry)
  (st : TaskManager * bool) (s : @Machine P) :
(∀ mgr, enumerates (order mgr) mgr) →
Sample.invariant clk a1 a2 a3 a4 st s →
∃ st' s',
  Sample.iteration clk order st s = (Normal st', s')
  ∧ Sample.invariant clk a1 a2 a3 a4 st' s'
  ∧ (st.2 = true → st' = st ∧ times a1 (fired s') = times a1 (fired s)).
Proof.
intros Horder (Hlay & Hcon & Hflag & L2 & L3 & L4 & Hreg).
destruct sample_addresses_differ as (H12 & H13 & H14 & H23 & H24 & H34).
destruct st as [mgr removed]; simpl in *.
assert (Hin : ∀ k p, (k, p) ∈ order mgr → mAllTasks mgr !! k = Some p).
{ intros k p He. apply elem_of_map_to_list. by rewrite <- (Horder mgr). }
assert (Hlive : all_live (order mgr) s).
{ apply Forall_forall. intros [k p] He%Hin. simpl.
  destruct removed.
  - destruct Hreg as [-> _].
    apply reduced_lookup in He as [-> | [-> | ->]]; eauto.
  - destruct Hreg as [-> L1].
    apply full_lookup in He as [[_ ->] | [-> | [-> | ->]]]; eauto. }
destruct (sweep_sample (order mgr) s Hlive Hlay Hcon)
  as (Hret & Hlay1 & Hcon1 & l & Hf).
pose proof (sweep_same_objects (order mgr) s) as Hsame.
assert (Hframe : removed = true →
          times a1 (fired (TaskManager_Update (order mgr) s).2)
          = times a1 (fired s)).
{ intros ->. destruct Hreg as [-> _].
  apply sweep_frame. unfold addresses. rewrite list_elem_of_omap.
  intros ([k p] & He%Hin & Hp). simpl in Hp. subst p.
  apply reduced_lookup in He as [? | [? | ?]]; congruence. }
unfold Sample.iteration, bind, Sample.bRemoveTask1; simpl.
destruct (TaskManager_Update (order mgr) s) as [o s1]; simpl in *. subst o.
assert (Hflag1 : removed = true → (user s1).2 = true).
{ intros ->. unfold Sample.consistent in Hcon, Hcon1.
  rewrite Hcon1. rewrite Hcon in Hflag. simpl in *.
  symmetry in Hflag. apply bool_decide_eq_true_1 in Hflag.
  apply bool_decide_eq_true_2. rewrite Hf. apply elem_of_app. by left. }
destruct removed; simpl.
- destruct Hreg as [-> Hgone].
  eexists _, _. split; [done|]. split; [| by auto].
  unfold Sample.invariant; simpl.
  split_and!; try done; try (by apply Hsame); [by rewrite Hflag1 |].
  apply eq_None_not_Some. rewrite (Hsame a1). by rewrite Hgone; intros [? ?].
- destruct Hreg as [-> L1].
  destruct (user s1).2 eqn:Hnow; simpl.
  + apply Hsame in L1 as [t1 Ht1].
    rewrite (TaskManager_Remove_present "1Sec" full s1 a1 t1 full_first Ht1).
    eexists _, _. split; [done|]. split; [| done].
    unfold Sample.invariant, Sample.layout, Sample.consistent, with_heap; simpl.
    split_and!; try done.
    * intros a t [_ Ha]%lookup_delete_Some. by apply Hlay1.
    * rewrite lookup_delete_ne by done. by apply Hsame.
    * rewrite lookup_delete_ne by done. by apply Hsame.
    * rewrite lookup_delete_ne by done. by apply Hsame.
    * apply lookup_delete_eq.
  + eexists _, _. split; [done|]. split; [| done].
    unfold Sample.invariant; simpl.
    split_and!; try done; by apply Hsame.
Qed.

Lemma loop_run (n : nat) (order : TaskManager → list entry)
  (st : TaskManager * bool) (s : @Machine P) :
(∀ mgr, enumerates (order mgr) mgr) →
Sample.invariant clk a1 a2 a3 a4 st s →
∃ st' s',
  Sample.loop clk n order st s = (Normal st', s')
  ∧ Sample.invariant clk a1 a2 a3 a4 st' s'
  ∧ (st.2 = true → st' = st ∧ times a1 (fired s') = times a1 (fired s)).
Proof.
intros Horder. revert st s.
induction n as [|n IH]; intros st s Hinv.
- exists st, s. by split_and!.
- destruct (iteration_run order st s Horder Hinv) as (st1 & s1 & Hit & Hinv1 & Hkeep1).
  destruct (IH st1 s1 Hinv1) as (st' & s' & Hloop & Hinv' & Hkeep').
  exists st', s'. split; [| split; [done|]].
  + simpl. unfold bind. by rewrite Hit.
  + intros Hrem. destruct (Hkeep1 Hrem) as [-> Ht1].
    destruct (Hkeep' Hrem) as [-> Ht']. split; [done | congruence].
Qed.

Lemma loop_add (n m : nat) (order : TaskManager → list entry)
  (st : TaskManager * bool) (s : @Machine P) :
Sample.loop clk (n + m) order st s
= (st' <- Sample.loop clk n order st ;; Sample.loop clk m order st') s.
Proof.
revert st s. induction n as [|n IH]; intros st s; [done|].
simpl. unfold bind.
destruct (Sample.iteration clk order st s) as [[st1 | e |] s1]; [| done | done].
by rewrite IH.
Qed.

(** X16. The sample program, whatever the clock, the addresses of its four
Tasks and the order in which the table enumerates them: [main] runs any
number of turns of its loop without an exception or a dereferenced null
pointer; what it has printed is the lines of the callables invoked so far, in
order; "1Sec" is in the registry exactly as long as the 15 second Task has
not run, and is removed, and its Task destroyed, in the turn in which that
Task first runs; from then on the 1 second Task is never invoked again. *)
Theorem sample_program_retires_first_task (order : TaskManager → list entry)
  (j1 j2 j3 j4 : Z * Z) (n : nat) :
(∀ mgr, enumerates (order mgr) mgr) →
∃ (mgr : TaskManager) (removed : bool) (s : @Machine P),
  Sample.main clk n order a1 a2 a3 a4 j1 j2 j3 j4 (Sample.start clk)
  = (Normal (mgr, removed), s)
  ∧ user s = observed (fired s)
  ∧ removed = bool_decide (a4 ∈ fired s)
  ∧ (if removed
     then mAllTasks mgr !! "1Sec" = None ∧ heap s !! a1 = None
     else mAllTasks mgr !! "1Sec" = Some (Some a1) ∧ is_Some (heap s !! a1))
  ∧ (removed = true →
     ∀ m, ∃ s',
       Sample.main clk (n + m) order a1 a2 a3 a4 j1 j2 j3 j4 (Sample.start clk)
       = (Normal (mgr, true), s')
       ∧ times a1 (fired s') = times a1 (fired s)).
Proof.
intros Horder.
destruct (setup_run j1 j2 j3 j4) as (s0 & Hsetup & Hinv0).
destruct (loop_run n order (full, false) s0 Horder Hinv0)
  as ([mgr removed] & s & Hloop & Hinv & _).
exists mgr, removed, s.
assert (Hmain : ∀ k, Sample.main clk k order a1 a2 a3 a4 j1 j2 j3 j4 (Sample.start clk)
                     = Sample.loop clk k order (full, false) s0).
{ intros k. unfold Sample.main, bind. by rewrite Hsetup. }
pose proof Hinv as (Hlay & Hcon & Hflag & _ & _ & _ & Hreg). simpl in *.
split_and!.
- by rewrite Hmain.
- exact Hcon.
- rewrite Hflag. unfold Sample.consistent in Hcon. by rewrite Hcon.
- destruct removed.
  + destruct Hreg as [-> Hgone]. split; [apply lookup_delete_eq | done].
  + destruct Hreg as [-> L1]. split; [apply full_first | done].
- intros ->. intros m.
  destruct (loop_run m order (mgr, true) s Horder Hinv)
    as (st' & s' & Hloop' & _ & Hkeep).
  destruct (Hkeep eq_refl) as [-> Htimes].
  exists s'. split; [| done].
  rewrite Hmain, loop_add. unfold bind. by rewrite Hloop.
Qed.

End SampleProgram.

(** ** The model run on the scenarios of the specification *)

(** A Task with a one second interval, polled every 100 ms for 2.5 s, prints
twice: at 1.0 s and at 2.0 s. *)
Example one_second_task_polled_for_2500ms :
let s0 := (@Task_ctor Demo.platform 1%positive (0, 0) 1
             (Demo.say "1 Second Task") Demo.boot).2 in
fired (updates 9 1%positive s0) = []
∧ fired (updates 10 1%positive s0) = [1%positive]
∧ fired (updates 19 1%positive s0) = [1%positive]
∧ fired (updates 25 1%positive s0) = [1%positive; 1%positive]
∧ user (updates 25 1%positive s0) = ["1 Second Task"; "1 Second Task"].
Proof. by vm_compute. Qed.

(** The sample program hands a Task to the registry: the stored pointer is
the one the caller had, and the caller is left with a null pointer. *)
Example sample_program_add :
let r := (tsk1 <- @make_unique_Task Demo.platform 1%positive (0, 0) 1
                    (Demo.say "1 Second Task") ;;
          after <- TaskManager_Add "1Sec" tsk1 {| mAllTasks := ∅ |} ;;
          ret (tsk1, mAllTasks after.1 !! "1Sec", after.2)) Demo.boot in
r.1 = Normal (Some 1%positive, Some (Some 1%positive), None)
∧ mNextExecStamp <$> heap r.2 !! 1%positive = Some 1000000000.
Proof. by vm_compute. Qed.

(** Once its key is removed, a Task that was due is not polled any more. *)
Example removed_task_no_longer_fires :
let r := (mgr' <- @TaskManager_Remove Demo.platform "1Sec" Demo.registry ;;
          TaskManager_Update [("10Sec", Some 2%positive)] ;;;
          ret (mAllTasks mgr' !! "1Sec")) Demo.running in
r.1 = Normal None
∧ mNextExecStamp <$> heap r.2 !! 1%positive = None
∧ polled r.2 = [2%positive]
∧ fired r.2 = [].
Proof. by vm_compute. Qed.

(** ** The theorems at work on the concrete platform *)

Lemma disarmed_task_never_fires_witness :
heap (updates 4 1%positive Demo.idle) = heap Demo.idle
∧ fired (updates 4 1%positive Demo.idle) = []
∧ user (updates 4 1%positive Demo.idle) = []
∧ reads (updates 4 1%positive Demo.idle) = O
∧ (Task_Update 1%positive (updates 4 1%positive Demo.idle)).1 = Normal tt.
Proof.
apply (disarmed_task_never_fires (H := Demo.platform)
         Demo.idle 1%positive Demo.disarmed 4); reflexivity.
Defined.

Lemma set_interval_rearms_from_now_witness :
∃ t', heap (Task_setIntervalChronoNanos 1%positive 5000000000 Demo.overdue).2
        !! 1%positive = Some t'
      ∧ mNextExecStamp t' = 8500000000.
Proof.
destruct (set_interval_rearms_from_now (H := Demo.platform)
            Demo.overdue 1%positive Demo.ticker 5000000000)
  as (_ & _ & Hnext & _); [reflexivity |].
destruct Hnext as (t' & Ht' & Hstamp & _); [by vm_compute |].
exists t'. split; [exact Ht' | exact Hstamp].
Defined.

Lemma task_fires_first_at_deadline_witness :
let s0 := (Task_ctor 1%positive (0, 0) 1 (Demo.say "1 Second Task") Demo.boot).2 in
fired (updates 9 1%positive s0) = []
∧ fired (Task_Update 1%positive (updates 9 1%positive s0)).2 = [1%positive]
∧ user (Task_Update 1%positive (updates 9 1%positive s0)).2 = ["1 Second Task"].
Proof.
intros s0.
destruct (task_fires_first_at_deadline (H := Demo.platform) Demo.boot 1%positive
            (0, 0) 1 (Demo.say "1 Second Task") 9)
  as (Hearly & _ & Hfired & Huser & _).
- by vm_compute.
- intros i Hi. do 9 (destruct i as [|i]; [by vm_compute |]). lia.
- by vm_compute.
- destruct (Hearly 9%nat (le_n 9)) as (_ & _ & Hnone).
  split; [exact Hnone | split; [exact Hfired | exact Huser]].
Defined.

Lemma update_fires_once_without_catching_up_witness :
fired (Task_Update 1%positive Demo.overdue).2 = [1%positive]
∧ user (Task_Update 1%positive Demo.overdue).2 = ["tick"]
∧ heap (Task_Update 1%positive Demo.overdue).2
  = <[1%positive := set_mNextExecStamp 4500000000 Demo.ticker]> (heap Demo.overdue).
Proof.
destruct (update_fires_once_without_catching_up (H := Demo.platform)
            Demo.overdue 1%positive Demo.ticker) as (_ & Hlate);
  [reflexivity | reflexivity |].
apply (Hlate 2%nat); by vm_compute.
Defined.

Lemma zero_interval_fires_on_every_poll_witness :
let s0 := (Task_setIntervalChronoNanos 1%positive 0 Demo.idle).2 in
fired (Task_Update 1%positive (updates 3 1%positive s0)).2
= fired (updates 3 1%positive s0) ++ [1%positive].
Proof.
intros s0.
destruct (zero_interval_fires_on_every_poll (H := Demo.platform)
            Demo.idle 1%positive Demo.disarmed 3
            demo_clock_monotone demo_clock_in_int64) as (Hfired & _);
  [reflexivity |].
exact Hfired.
Defined.

Lemma demo_registry_owns : @owns Demo.platform Demo.registry Demo.running.
Proof.
split.
- intros k p Hk. unfold Demo.registry in Hk; simpl in Hk.
  apply lookup_insert_Some in Hk as [[<- <-] | [_ Hk]]; [by exists 1%positive |].
  apply lookup_singleton_Some in Hk as [<- <-]. by exists 2%positive.
- intros k1 k2 a H1 H2. unfold Demo.registry in H1, H2; simpl in H1, H2.
  apply lookup_insert_Some in H1 as [[<- H1] | [_ H1]];
    apply lookup_insert_Some in H2 as [[<- H2] | [_ H2]]; try done.
  + apply lookup_singleton_Some in H2 as [<- H2]. congruence.
  + apply lookup_singleton_Some in H1 as [<- H1]. congruence.
  + apply lookup_singleton_Some in H1 as [<- _].
    by apply lookup_singleton_Some in H2 as [<- _].
Qed.

Lemma demo_registry_enumeration :
enumerates [("10Sec", Some 2%positive); ("1Sec", Some 1%positive)] Demo.registry.
Proof.
unfold enumerates.
apply NoDup_Permutation.
- apply NoDup_cons. split; [|apply NoDup_singleton].
  intros Hin%list_elem_of_singleton. discriminate.
- apply NoDup_map_to_list.
- intros [k p]. rewrite elem_of_map_to_list. unfold Demo.registry; simpl.
  rewrite lookup_insert_Some, lookup_singleton_Some.
  rewrite elem_of_cons, list_elem_of_singleton. split.
  + intros [Heq | Heq]; injection Heq as -> ->; [right | left]; done.
  + intros [[<- <-] | [_ [<- <-]]]; [by right | by left].
Qed.

Lemma demo_callables_return : @callables_return Demo.platform Demo.registry Demo.running.
Proof.
intros k a t u Hk Ht. unfold Demo.registry in Hk; simpl in Hk.
apply lookup_insert_Some in Hk as [[_ Hk] | [_ Hk]].
- injection Hk as <-. by injection Ht as <-.
- apply lookup_singleton_Some in Hk as [_ Hk].
  injection Hk as <-. by injection Ht as <-.
Qed.

Lemma registry_update_polls_each_task_once_witness :
let es := [("10Sec", Some 2%positive); ("1Sec", Some 1%positive)] in
let r := @TaskManager_Update Demo.platform es Demo.running in
r.1 = Normal tt
∧ times 1%positive (polled r.2) = 1%nat
∧ times 2%positive (polled r.2) = 1%nat
∧ times 1%positive (fired r.2) = 1%nat
∧ user r.2 = ["tick"].
Proof.
intros es r.
destruct (registry_update_polls_each_task_once (H := Demo.platform)
            Demo.registry es Demo.running
            demo_registry_enumeration demo_registry_owns)
  as (Hreturns & Hswept & l & Hlog & Hstate & _).
pose proof (Hreturns demo_callables_return) as Hret.
destruct (Hswept Hret) as (Hpolled & Hfired).
split_and!.
- exact Hret.
- by apply (Hpolled "1Sec").
- by apply (Hpolled "10Sec").
- apply (Hfired demo_clock_monotone "1Sec" 1%positive Demo.ticker);
    [reflexivity | reflexivity | by vm_compute].
- assert (Hl : l = [1%positive]).
  { vm_compute in Hlog. by symmetry. }
  subst l. etrans; [exact Hstate |]. reflexivity.
Defined.

Lemma add_existing_key_changes_nothing_witness :
∃ mgr' tsk',
  (@TaskManager_Add Demo.platform "1Sec" (Some 3%positive)
     Demo.registry Demo.running).1 = Normal (mgr', tsk')
  ∧ mgr' = Demo.registry
  ∧ mAllTasks mgr' !! "1Sec" = Some (Some 1%positive).
Proof.
destruct (add_existing_key_changes_nothing (H := Demo.platform)
            Demo.registry "1Sec" (Some 1%positive) (Some 3%positive)
            Demo.running eq_refl)
  as (mgr' & tsk' & Hr & Hsame & Hold & _).
by exists mgr', tsk'.
Defined.

Lemma rejected_add_leaves_task_with_caller_witness :
(@TaskManager_Add_rvalue Demo.platform "1Sec" (Some 3%positive)
   Demo.registry Demo.running).1 = Normal (Demo.registry, Some 3%positive)
∧ heap (@TaskManager_Add_rvalue Demo.platform "1Sec" (Some 3%positive)
          Demo.registry Demo.running).2 !! 3%positive = Some Demo.disarmed.
Proof.
destruct (rejected_add_leaves_task_with_caller (H := Demo.platform)
            Demo.registry "1Sec" (Some 3%positive) Demo.running)
  as (Hr & _ & Halive); [by eexists |].
split; [exact Hr |]. by apply Halive.
Defined.

Lemma remove_deletes_or_does_nothing_witness :
(∃ mgr', @TaskManager_Remove Demo.platform "1Sec" Demo.registry Demo.running
         = (Normal mgr', with_heap (delete 1%positive (heap Demo.running)) Demo.running)
   ∧ mAllTasks mgr' !! "1Sec" = None)
∧ @TaskManager_Remove Demo.platform "5Sec" Demo.registry Demo.running
  = (Normal Demo.registry, Demo.running).
Proof.
destruct (remove_deletes_or_does_nothing (H := Demo.platform)
            Demo.registry "1Sec" Demo.running) as (Hpresent & _ & _).
destruct (remove_deletes_or_does_nothing (H := Demo.platform)
            Demo.registry "5Sec" Demo.running) as (_ & Habsent & _).
split.
- destruct (Hpresent 1%positive Demo.ticker eq_refl eq_refl)
    as (mgr' & Hr & Hgone & _).
  by exists mgr'.
- by apply Habsent.
Defined.

Lemma exception_ends_the_sweep_witness :
@TaskManager_Update Demo.platform
  [("1Sec", Some 1%positive); ("10Sec", Some 2%positive)] Demo.failing
= (@Thrown Demo.platform unit "boom",
   (@Task_Update Demo.platform 1%positive Demo.failing).2)
∧ polled (@TaskManager_Update Demo.platform
            [("1Sec", Some 1%positive); ("10Sec", Some 2%positive)] Demo.failing).2
  = [1%positive].
Proof.
destruct (exception_ends_the_sweep (H := Demo.platform)
            [] [("10Sec", Some 2%positive)] "1Sec" 1%positive Demo.faulty
            "boom" Demo.failing Demo.failing)
  as (_ & Hsweep & Hpolled & _);
  [reflexivity | reflexivity | by vm_compute | reflexivity |].
split; [exact Hsweep | exact Hpolled].
Defined.

Lemma demo_clock_fits (D : Z) :
- 10 ^ 18 <= D <= 10 ^ 18 →
∀ m, Chrono.in_int64 (@clock Demo.platform m + D).
Proof.
intros HD m. unfold Chrono.in_int64, Chrono.int64_min, Chrono.int64_max; simpl.
lia.
Qed.

Lemma demo_registry_lacks_third (k : string) :
mAllTasks Demo.registry !! k ≠ Some (Some 3%positive).
Proof.
unfold Demo.registry; simpl. intros Hk.
apply lookup_insert_Some in Hk as [[_ Hk] | [_ Hk]]; [done |].
by apply lookup_singleton_Some in Hk as [_ Hk].
Qed.

Lemma interval_wrappers_scale_to_nanoseconds_witness :
@mNextExecStamp Demo.platform <$> heap (@Task_setIntervalSecs Demo.platform 1%positive 5 Demo.overdue).2
                     !! 1%positive = Some 8500000000
∧ @mNanoInterval Demo.platform <$> heap (@Task_setIntervalMillis Demo.platform 1%positive 5 Demo.overdue).2
                      !! 1%positive = Some 5000000
∧ @mNanoInterval Demo.platform <$> heap (@Task_setIntervalNanos Demo.platform 1%positive 5 Demo.overdue).2
                      !! 1%positive = Some 5.
Proof.
destruct (interval_wrappers_scale_to_nanoseconds (H := Demo.platform)
            Demo.overdue 1%positive Demo.ticker 5 eq_refl)
  as (Hsecs & Hmillis & Hnanos); [lia |].
rewrite Hsecs, Hmillis, Hnanos by by vm_compute.
by split_and!.
Defined.

Lemma callable_and_arming_are_permanent_witness :
∃ t', heap (@after_ops Demo.platform [Poll; Rearm 5; Poll; Rearm 0]
              1%positive Demo.overdue) !! 1%positive = Some t'
      ∧ mTask t' = mTask Demo.ticker
      ∧ (mHasSetInterval Demo.ticker = true → mHasSetInterval t' = true).
Proof.
apply (callable_and_arming_are_permanent (H := Demo.platform)
         [Poll; Rearm 5; Poll; Rearm 0] Demo.overdue 1%positive Demo.ticker).
reflexivity.
Defined.

Lemma update_changes_only_the_deadline_witness :
∃ stamp,
  heap (@Task_Update Demo.platform 1%positive Demo.running).2
  = <[1%positive := set_mNextExecStamp stamp Demo.ticker]> (heap Demo.running)
  ∧ heap (@Task_Update Demo.platform 1%positive Demo.running).2 !! 2%positive
    = heap Demo.running !! 2%positive.
Proof.
destruct (update_changes_only_the_deadline (H := Demo.platform)
            Demo.running 1%positive Demo.ticker eq_refl)
  as (stamp & Hheap & _ & Hothers & _).
exists stamp. split; [exact Hheap |]. by apply Hothers.
Defined.

Lemma fires_are_one_interval_apart_witness :
let s1 := (@Task_Update Demo.platform 1%positive Demo.overdue).2 in
fired s1 = [1%positive]
∧ fired (updates 9 1%positive s1) = [1%positive]
∧ user (updates 9 1%positive s1) = ["tick"].
Proof.
apply (fires_are_one_interval_apart (H := Demo.platform)
         Demo.overdue 1%positive Demo.ticker 9).
- reflexivity.
- by vm_compute.
- by vm_compute.
- intros i Hi. do 9 (destruct i as [|i]; [by vm_compute |]). lia.
Defined.

Lemma nonpositive_interval_fires_on_every_poll_witness :
fired (updates 3 1%positive
         (@Task_setIntervalChronoNanos Demo.platform 1%positive (-1) Demo.idle).2)
= [1%positive; 1%positive; 1%positive]
∧ user (updates 3 1%positive
          (@Task_setIntervalChronoNanos Demo.platform 1%positive (-1) Demo.idle).2)
  = ["never"; "never"; "never"].
Proof.
apply (nonpositive_interval_fires_on_every_poll (H := Demo.platform)
         Demo.idle 1%positive Demo.disarmed (-1) 3 demo_clock_monotone).
- lia.
- apply demo_clock_fits. lia.
- reflexivity.
Defined.

Lemma rearming_cancels_pending_fire_witness :
let s1 := (@Task_setIntervalChronoNanos Demo.platform 1%positive 1000000000
             Demo.overdue).2 in
fired (updates 9 1%positive s1) = []
∧ user (updates 9 1%positive s1) = [].
Proof.
apply (rearming_cancels_pending_fire (H := Demo.platform)
         Demo.overdue 1%positive Demo.ticker 1000000000 9).
- reflexivity.
- by vm_compute.
- intros i Hi. do 9 (destruct i as [|i]; [by vm_compute |]). lia.
Defined.

Lemma invocations_bounded_by_elapsed_time_witness :
∃ f : nat,
  fired (@updates Demo.platform 25 1%positive Demo.overdue)
  = fired Demo.overdue ++ replicate f 1%positive
  ∧ (f = O
     ∨ mNextExecStamp Demo.ticker + Z.of_nat f * mNanoInterval Demo.ticker
       <= @clock Demo.platform (reads Demo.overdue + 25 - 1)
          + mNanoInterval Demo.ticker).
Proof.
apply (invocations_bounded_by_elapsed_time (H := Demo.platform)
         25 Demo.overdue 1%positive Demo.ticker demo_clock_monotone).
- by vm_compute.
- apply demo_clock_fits. simpl. lia.
- reflexivity.
- reflexivity.
Defined.

Lemma add_then_remove_restores_registry_witness :
(r <- @TaskManager_Add Demo.platform "5Sec" (Some 3%positive) Demo.registry ;;
 mgr' <- TaskManager_Remove "5Sec" r.1 ;;
 ret (mgr', r.2)) Demo.running
= (Normal (Demo.registry, None),
   with_heap (delete 3%positive (heap Demo.running)) Demo.running)
∧ heap (with_heap (delete 3%positive (heap Demo.running)) Demo.running)
    !! 3%positive = None.
Proof.
apply (add_then_remove_restores_registry (H := Demo.platform)
         Demo.registry "5Sec" 3%positive Demo.disarmed Demo.running);
  reflexivity.
Defined.

Lemma removed_key_can_be_reused_witness :
(mgr' <- @TaskManager_Remove Demo.platform "1Sec" Demo.registry ;;
 TaskManager_Add "1Sec" (Some 3%positive) mgr') Demo.running
= (Normal ({| mAllTasks := <["1Sec" := Some 3%positive]> (mAllTasks Demo.registry) |},
           None),
   with_heap (delete 1%positive (heap Demo.running)) Demo.running).
Proof.
apply (removed_key_can_be_reused (H := Demo.platform)
         Demo.registry "1Sec" 1%positive 3%positive Demo.ticker Demo.running);
  reflexivity.
Defined.

Lemma null_pointer_entry_breaks_update_witness :
∃ mgr',
  @TaskManager_Add Demo.platform "5Sec" None Demo.registry Demo.running
  = (Normal (mgr', None), Demo.running)
  ∧ mAllTasks mgr' !! "5Sec" = Some None.
Proof.
destruct (null_pointer_entry_breaks_update (H := Demo.platform)
            Demo.registry "5Sec" Demo.running eq_refl)
  as (mgr' & Hadd & Hnull & _).
by exists mgr'.
Defined.

Lemma auto_keys_do_not_collide_witness :
∃ mgr',
  (r <- @TaskManager_Add_auto Demo.platform (Some 1%positive) Demo.registry ;;
   r' <- TaskManager_Add_auto (Some 2%positive) r.1 ;;
   ret (r'.1, r.2, r'.2)) Demo.running
  = (Normal (mgr', None, None), Demo.running)
  ∧ mAllTasks mgr' !! pretty (Npos 1) = Some (Some 1%positive)
  ∧ mAllTasks mgr' !! pretty (Npos 2) = Some (Some 2%positive).
Proof.
apply (auto_keys_do_not_collide (H := Demo.platform)
         Demo.registry 1%positive 2%positive Demo.running);
  [discriminate | reflexivity | reflexivity].
Defined.

Lemma registry_operations_keep_ownership_witness :
(∃ mgr' tsk',
   @TaskManager_Add Demo.platform "5Sec" (Some 3%positive) Demo.registry Demo.running
   = (Normal (mgr', tsk'), Demo.running)
   ∧ owns mgr' Demo.running)
∧ owns Demo.registry
    (@TaskManager_Update Demo.platform
       [("10Sec", Some 2%positive); ("1Sec", Some 1%positive)] Demo.running).2.
Proof.
destruct (registry_operations_keep_ownership (H := Demo.platform)
            Demo.registry Demo.running demo_registry_owns)
  as (Hadd & _ & Hupdate).
split.
- apply (Hadd "5Sec" 3%positive Demo.disarmed); [reflexivity |].
  apply demo_registry_lacks_third.
- apply Hupdate.
Defined.

Lemma update_touches_only_stored_tasks_witness :
let s' := (@TaskManager_Update Demo.platform
             [("10Sec", Some 2%positive); ("1Sec", Some 1%positive)]
             Demo.running).2 in
heap s' !! 3%positive = heap Demo.running !! 3%positive
∧ times 3%positive (polled s') = times 3%positive (polled Demo.running)
∧ times 3%positive (fired s') = times 3%positive (fired Demo.running)
∧ same_objects Demo.running s'.
Proof.
apply (update_touches_only_stored_tasks (H := Demo.platform) Demo.registry).
- apply demo_registry_enumeration.
- apply demo_registry_lacks_third.
Defined.

Lemma removed_task_is_never_polled_again_witness :
∃ mgr',
  (@TaskManager_Remove Demo.platform "1Sec" Demo.registry Demo.running).1
  = Normal mgr'
  ∧ heap (@TaskManager_Remove Demo.platform "1Sec" Demo.registry Demo.running).2
      !! 1%positive = None.
Proof.
destruct (removed_task_is_never_polled_again (H := Demo.platform)
            Demo.registry "1Sec" 1%positive Demo.running
            demo_registry_owns eq_refl)
  as (mgr' & Hr & Hgone & _).
by exists mgr'.
Defined.

Lemma sample_program_retires_first_task_witness :
∃ (mgr : TaskManager) (removed : bool) (s : @Machine (Sample.platform Sample.tick)),
  Sample.main Sample.tick 3 Sample.listing 1%positive 2%positive 3%positive
    4%positive (0, 0) (0, 0) (0, 0) (0, 0) (Sample.start Sample.tick)
  = (Normal (mgr, removed), s)
  ∧ user s = Sample.observed 1%positive 2%positive 3%positive 4%positive (fired s)
  ∧ removed = bool_decide (4%positive ∈ fired s).
Proof.
assert (Hdistinct : NoDup [1%positive; 2%positive; 3%positive; 4%positive]).
{ rewrite !NoDup_cons, !not_elem_of_cons.
  split_and!; try discriminate; try apply not_elem_of_nil. apply NoDup_nil_2. }
assert (Horder : ∀ mgr, enumerates (Sample.listing mgr) mgr).
{ intros mgr. unfold enumerates, Sample.listing. apply Permutation_refl. }
destruct (sample_program_retires_first_task Sample.tick 1%positive 2%positive
            3%positive 4%positive Hdistinct Sample.listing
            (0, 0) (0, 0) (0, 0) (0, 0) 3 Horder)
  as (mgr & removed & s & Hrun & Hout & Hflag & _).
exists mgr, removed, s. exact (conj Hrun (conj Hout Hflag)).
Defined.
